(** * Cache-and-count decorator of [0x02-redis_basic/web.py]

    A shallow embedding of [cache_and_count], its [wrapper] and [get_page].
    The wrapper talks to two collaborators that are not part of the
    repository: a Redis server, through redis-py, and the function it
    wraps.  Both are modelled here so that the wrapper can be run: the
    three commands the wrapper sends (INCR, GET, SETEX) act on an in-memory
    keyspace of string values with expiry times, Python's [str] and [bytes]
    are told apart and the UTF-8 codec sits between them as it does in
    redis-py, and the wrapped function is a function of the time it is
    called at.  A store that cannot be reached and keys that hold another
    Redis type than a string are left out. *)

From Stdlib Require Import ZArith NArith Lia Bool List Ascii String.
From Stdlib Require Import DecimalString DecimalZ.
From stdpp Require Import gmap strings.

(** * Part I: the program *)

Local Open Scope N_scope.

(** ** Python values

    A Python [bytes] object is a sequence of 8-bit bytes: Rocq's [string].
    A Python [str] is a sequence of code points, each a number in
    [0 .. 0x10FFFF]; lone surrogates are legal inside a [str]. *)

Abbreviation bytes := string (only parsing).
Definition str := list N.

Definition ord (b : ascii) : N := N_of_ascii b.
Definition byte (n : N) : ascii := ascii_of_N n.

(** A [str] literal whose characters are all ASCII. *)
Fixpoint str_of_ascii (s : string) : str :=
  match s with
  | EmptyString => []
  | String a s' => ord a :: str_of_ascii s'
  end.

(** ** UTF-8, strict error handler

    [utf8_encode_char] is [str.encode('utf-8')] on one code point: one to
    four bytes, and no encoding for a surrogate. *)

Definition is_surrogate (c : N) : bool := (0xD800 <=? c) && (c <=? 0xDFFF).

Definition utf8_encode_char (c : N) : option bytes :=
  if c <? 0x80 then
    Some (String (byte c) "")
  else if c <? 0x800 then
    Some (String (byte (N.lor 0xC0 (N.shiftr c 6)))
         (String (byte (N.lor 0x80 (N.land c 0x3F))) ""))
  else if c <? 0x10000 then
    if is_surrogate c then None
    else
      Some (String (byte (N.lor 0xE0 (N.shiftr c 12)))
           (String (byte (N.lor 0x80 (N.land (N.shiftr c 6) 0x3F)))
           (String (byte (N.lor 0x80 (N.land c 0x3F))) "")))
  else if c <? 0x110000 then
    Some (String (byte (N.lor 0xF0 (N.shiftr c 18)))
         (String (byte (N.lor 0x80 (N.land (N.shiftr c 12) 0x3F)))
         (String (byte (N.lor 0x80 (N.land (N.shiftr c 6) 0x3F)))
         (String (byte (N.lor 0x80 (N.land c 0x3F))) ""))))
  else None.

Fixpoint utf8_encode (s : str) : option bytes :=
  match s with
  | [] => Some EmptyString
  | c :: s' =>
      match utf8_encode_char c, utf8_encode s' with
      | Some b, Some bs => Some (b ++ bs)%string
      | _, _ => None
      end
  end.

(** [bytes.decode('utf-8')]: a continuation byte is [10xxxxxx]; overlong
    forms, surrogates and code points above [0x10FFFF] are rejected. *)

Definition is_continuation (b : ascii) : bool :=
  (0x80 <=? ord b) && (ord b <? 0xC0).

Definition cont_bits (b : ascii) : N := N.land (ord b) 0x3F.

Fixpoint utf8_decode (b : bytes) : option str :=
  match b with
  | EmptyString => Some []
  | String b0 r0 =>
      let n0 := ord b0 in
      if n0 <? 0x80 then
        match utf8_decode r0 with Some s => Some (n0 :: s) | None => None end
      else if n0 <? 0xC0 then None
      else if n0 <? 0xE0 then
        match r0 with
        | String b1 r1 =>
            let c := N.lor (N.shiftl (N.land n0 0x1F) 6) (cont_bits b1) in
            if is_continuation b1 && (0x80 <=? c) then
              match utf8_decode r1 with Some s => Some (c :: s) | None => None end
            else None
        | _ => None
        end
      else if n0 <? 0xF0 then
        match r0 with
        | String b1 (String b2 r2) =>
            let c := N.lor (N.shiftl (N.land n0 0x0F) 12)
                       (N.lor (N.shiftl (cont_bits b1) 6) (cont_bits b2)) in
            if is_continuation b1 && is_continuation b2
               && (0x800 <=? c) && negb (is_surrogate c) then
              match utf8_decode r2 with Some s => Some (c :: s) | None => None end
            else None
        | _ => None
        end
      else if n0 <? 0xF8 then
        match r0 with
        | String b1 (String b2 (String b3 r3)) =>
            let c := N.lor (N.shiftl (N.land n0 0x07) 18)
                       (N.lor (N.shiftl (cont_bits b1) 12)
                          (N.lor (N.shiftl (cont_bits b2) 6) (cont_bits b3))) in
            if is_continuation b1 && is_continuation b2 && is_continuation b3
               && (0x10000 <=? c) && (c <? 0x110000) then
              match utf8_decode r3 with Some s => Some (c :: s) | None => None end
            else None
        | _ => None
        end
      else None
  end.

(** An ASCII literal: every character below [0x80]. *)
Definition is_ascii (s : string) : Prop :=
  Forall (fun c => c < 0x80) (str_of_ascii s).

(** ** Integers as the store keeps them

    Redis keeps a counter as the decimal text of a signed 64-bit integer.
    [string2ll] accepts exactly the canonical texts (no sign for zero, no
    leading zero, no blank) inside the 64-bit range. *)

Local Open Scope Z_scope.

Definition LLONG_MAX : Z := 9223372036854775807.
Definition LLONG_MIN : Z := -9223372036854775808.

Definition ll2string (z : Z) : bytes := NilZero.string_of_int (Z.to_int z).

Definition string2ll (s : bytes) : option Z :=
  match NilZero.int_of_string s with
  | Some d =>
      let z := Z.of_int d in
      if String.eqb (ll2string z) s && (LLONG_MIN <=? z) && (z <=? LLONG_MAX)
      then Some z else None
  | None => None
  end.

(** ** The store and the world around a call

    An entry is a value with an optional absolute expiry time, in
    milliseconds as Redis keeps it.  The world is the store's keyspace,
    the wall clock and the log of everything that went out of the process:
    the commands sent to the store and the calls of the wrapped function. *)

Record entry := Entry { value : bytes; expire_at : option Z }.

Inductive event :=
  | INCR (key : bytes)
  | GET (key : bytes)
  | SETEX (key : bytes) (seconds : Z) (val : bytes)
  | CALL (url : str).

(** The exceptions of a call: the two of the codec, the one redis-py
    raises when the server refuses a command, and whatever the wrapped
    function raises, told apart by name. *)
Inductive exn :=
  | UnicodeEncodeError
  | UnicodeDecodeError
  | ResponseError
  | Raised (name : string).

Record world := World {
  db : gmap bytes entry;
  clock : Z;
  trace : list event
}.

Definition log (ev : event) (w : world) : world :=
  {| db := db w; clock := clock w; trace := trace w ++ [ev] |}.

Definition store (key : bytes) (e : entry) (w : world) : world :=
  {| db := <[key := e]> (db w); clock := clock w; trace := trace w |}.

Definition sleep (ms : N) (w : world) : world :=
  {| db := db w; clock := clock w + Z.of_N ms; trace := trace w |}.

(** A key whose expiry time has passed is gone for every command. *)
Definition expired (e : entry) (t : Z) : bool :=
  match expire_at e with
  | Some at_ms => at_ms <? t
  | None => false
  end.

Definition live (w : world) (key : bytes) : option entry :=
  match db w !! key with
  | Some e => if expired e (clock w) then None else Some e
  | None => None
  end.

(** ** Computations: state with exceptions

    A raised exception keeps the world as it was when it was raised. *)

Definition M (A : Type) : Type := world -> (exn + A) * world.

Definition ret {A} (a : A) : M A := fun w => (inr a, w).
Definition raise {A} (e : exn) : M A := fun w => (inl e, w).
Definition bind {A B} (m : M A) (k : A -> M B) : M B :=
  fun w =>
    match m w with
    | (inr a, w') => k a w'
    | (inl e, w') => (inl e, w')
    end.

Notation "x <- m ;; k" := (bind m (fun x => k))
  (at level 100, m at next level, right associativity).

(** *** redis-py and the server

    The client encodes every [str] argument as UTF-8 before the command is
    sent; nothing is sent when that fails. *)

Definition encode_arg (s : str) : M bytes :=
  match utf8_encode s with
  | Some b => ret b
  | None => raise UnicodeEncodeError
  end.

(** The commands as the server runs them, on encoded arguments.

    INCR takes a missing key for 0 and leaves the expiry of a key alone; it
    refuses a value that is not the text of an integer, and an increment
    that would leave the 64-bit range. *)

Definition server_incr (key : bytes) : M Z :=
  fun w =>
    let w' := log (INCR key) w in
    match live w key with
    | None => (inr 1, store key (Entry (ll2string 1) None) w')
    | Some e =>
        match string2ll (value e) with
        | None => (inl ResponseError, w')
        | Some n =>
            if n <? LLONG_MAX then
              (inr (n + 1), store key (Entry (ll2string (n + 1)) (expire_at e)) w')
            else (inl ResponseError, w')
        end
    end.

Definition server_get (key : bytes) : M (option bytes) :=
  fun w => (inr (option_map value (live w key)), log (GET key) w).

(** SETEX refuses a time to live that is not positive, or that does not
    fit the server's 64-bit millisecond clock. *)
Definition invalid_expire (seconds t : Z) : bool :=
  (seconds <=? 0) || (LLONG_MAX / 1000 <? seconds)
  || (LLONG_MAX <? t + seconds * 1000).

Definition server_setex (key : bytes) (seconds : Z) (val : bytes) : M unit :=
  fun w =>
    let w' := log (SETEX key seconds val) w in
    if invalid_expire seconds (clock w)
    then (inl ResponseError, w')
    else (inr tt, store key (Entry val (Some (clock w + seconds * 1000))) w').

(** The client methods the wrapper calls on [redis.Redis()].  Every call
    makes a client of its own, and all of them reach the one server. *)

Definition redis_incr (name : str) : M Z :=
  key <- encode_arg name ;;
  server_incr key.

Definition redis_get (name : str) : M (option bytes) :=
  key <- encode_arg name ;;
  server_get key.

Definition redis_setex (name : str) (time : Z) (val : str) : M unit :=
  key <- encode_arg name ;;
  v <- encode_arg val ;;
  server_setex key time v.

(** *** The wrapped function

    [func] is outside the process: it sees the time it is called at, takes
    some time, and returns a [str] or raises.  It has no hand on the store. *)

Definition fetcher : Type := Z -> str -> N * (exn + str).

Definition call (func : fetcher) (url : str) : M str :=
  fun w =>
    let '(took, outcome) := func (clock w) url in
    (outcome, sleep took (log (CALL url) w)).

Definition bytes_decode (b : bytes) : M str :=
  match utf8_decode b with
  | Some s => ret s
  | None => raise UnicodeDecodeError
  end.

(** ** [cache_and_count] (web.py, lines 12-44)

    [wrapper] follows the body statement by statement.  The test
    [if cached_result:] holds for a [bytes] object that is not empty;
    [None] (no key) and [b''] are both falsy and fall through to the call
    of [func]. *)

Definition wrapper (expiration : Z) (func : fetcher) (url : str) : M str :=
  let cache_key := str_of_ascii "cache:" ++ url in
  let count_key := str_of_ascii "count:" ++ url in
  _ <- redis_incr count_key ;;
  cached_result <- redis_get cache_key ;;
  match cached_result with
  | Some (String _ _ as cached) => bytes_decode cached
  | Some EmptyString | None =>
      result <- call func url ;;
      _ <- redis_setex cache_key expiration result ;;
      ret result
  end.

Definition cache_and_count (expiration : Z) : fetcher -> str -> M str :=
  fun func => wrapper expiration func.

(** [expiration: int = 10] *)
Definition default_expiration : Z := 10.

(** ** [get_page] (web.py, lines 47-59)

    [requests.get] returns a response for every status code and raises only
    when no response came; [get_page] returns the [text] of the response,
    and is decorated with [@cache_and_count()]. *)

Record response := Response { status_code : Z; text : str }.

Definition http : Type := Z -> str -> N * (exn + response).

Definition get_page_body (requests_get : http) : fetcher :=
  fun t url =>
    let '(took, r) := requests_get t url in
    (took, match r with
           | inl e => inl e
           | inr resp => inr (text resp)
           end).

Definition get_page (requests_get : http) : str -> M str :=
  cache_and_count default_expiration (get_page_body requests_get).

(** * Part II: the vocabulary of the properties *)

(** ** A caller

    What a caller does with the wrapped function over time: it lets time
    pass, or it calls [g(url)] and goes on whatever came back. *)

Inductive action :=
  | Wait (ms : N)
  | Visit (url : str).

Fixpoint run (g : str -> M str) (acts : list action) (w : world) : world :=
  match acts with
  | [] => w
  | Wait ms :: rest => run g rest (sleep ms w)
  | Visit url :: rest => run g rest (snd (g url w))
  end.

Fixpoint visits (url : str) (acts : list action) : Z :=
  match acts with
  | [] => 0
  | Wait _ :: rest => visits url rest
  | Visit url' :: rest =>
      (if decide (url' = url) then 1 else 0) + visits url rest
  end.

(** ** What the spec calls CallCounter and CacheEntry

    For a url whose UTF-8 encoding is [u], [count_key u] and [cache_key u]
    are the wrapper's [count_key] and [cache_key] as the store gets them.
    Counter and entry are read from the store the way the script's
    [__main__] reads the counter: a GET of the key, at the time of the
    world; a counter that is not there yet reads 0. *)

Definition count_key (u : bytes) : bytes := ("count:" ++ u)%string.
Definition cache_key (u : bytes) : bytes := ("cache:" ++ u)%string.

Definition CacheEntry (w : world) (u : bytes) : option bytes :=
  option_map value (live w (cache_key u)).

Definition CallCounter (w : world) (u : bytes) : option Z :=
  match live w (count_key u) with
  | None => Some 0
  | Some e => string2ll (value e)
  end.

(** The expiry the key has at the time of the world, if any. *)
Definition expiry (w : world) (key : bytes) : option Z :=
  match live w key with
  | Some e => expire_at e
  | None => None
  end.

(** The counter's entry after an INCR that found the number [c]. *)
Definition bumped (w : world) (u : bytes) (c : Z) : entry :=
  Entry (ll2string (c + 1)) (expiry w (count_key u)).

(** Python's truth value of what GET returned. *)
Definition truthy (cached_result : option bytes) : bool :=
  match cached_result with
  | Some (String _ _) => true
  | Some EmptyString | None => false
  end.

(** The counter of [u] reads [n] and has no expiry: nothing is stored yet
    for [n = 0], and the text of [n] is stored without expiry otherwise. *)
Definition counts (w : world) (u : bytes) (n : Z) : Prop :=
  (n = 0 /\ live w (count_key u) = None)
  \/ (0 < n <= LLONG_MAX
      /\ db w !! count_key u = Some (Entry (ll2string n) None)).

(** The commands that write the key [k]. *)
Definition writes_to (k : bytes) (ev : event) : bool :=
  match ev with
  | INCR k' | SETEX k' _ _ => bool_decide (k' = k)
  | GET _ | CALL _ => false
  end.

(** ** The paths through one call

    Every way a call [wrapper expiration func url] can go from the world
    [w], read off the body of [wrapper] statement by statement, with the
    result and the world it leaves. *)

Inductive call_path (expiration : Z) (func : fetcher) (url : str) (w : world)
  : (exn + str) * world -> Prop :=
  | Unencodable :
      utf8_encode url = None ->
      call_path expiration func url w (inl UnicodeEncodeError, w)
  | Refused (u : string) :
      utf8_encode url = Some u ->
      CallCounter w u = None \/ CallCounter w u = Some LLONG_MAX ->
      call_path expiration func url w
        (inl ResponseError, log (INCR (count_key u)) w)
  | Hit (u : string) (c : Z) (a : ascii) (s : string) :
      utf8_encode url = Some u ->
      CallCounter w u = Some c -> c < LLONG_MAX ->
      CacheEntry w u = Some (String a s) ->
      call_path expiration func url w
        (match utf8_decode (String a s) with
         | Some r => inr r
         | None => inl UnicodeDecodeError
         end,
         {| db := <[count_key u := bumped w u c]> (db w);
            clock := clock w;
            trace := trace w ++ [INCR (count_key u); GET (cache_key u)] |})
  | Miss_raised (u : string) (c : Z) (took : N) (e : exn) :
      utf8_encode url = Some u ->
      CallCounter w u = Some c -> c < LLONG_MAX ->
      truthy (CacheEntry w u) = false ->
      func (clock w) url = (took, inl e) ->
      call_path expiration func url w
        (inl e,
         {| db := <[count_key u := bumped w u c]> (db w);
            clock := clock w + Z.of_N took;
            trace := trace w ++ [INCR (count_key u); GET (cache_key u);
                                 CALL url] |})
  | Miss_unencodable (u : string) (c : Z) (took : N) (result : str) :
      utf8_encode url = Some u ->
      CallCounter w u = Some c -> c < LLONG_MAX ->
      truthy (CacheEntry w u) = false ->
      func (clock w) url = (took, inr result) ->
      utf8_encode result = None ->
      call_path expiration func url w
        (inl UnicodeEncodeError,
         {| db := <[count_key u := bumped w u c]> (db w);
            clock := clock w + Z.of_N took;
            trace := trace w ++ [INCR (count_key u); GET (cache_key u);
                                 CALL url] |})
  | Miss_rejected (u : string) (c : Z) (took : N) (result : str) (v : string) :
      utf8_encode url = Some u ->
      CallCounter w u = Some c -> c < LLONG_MAX ->
      truthy (CacheEntry w u) = false ->
      func (clock w) url = (took, inr result) ->
      utf8_encode result = Some v ->
      invalid_expire expiration (clock w + Z.of_N took) = true ->
      call_path expiration func url w
        (inl ResponseError,
         {| db := <[count_key u := bumped w u c]> (db w);
            clock := clock w + Z.of_N took;
            trace := trace w ++ [INCR (count_key u); GET (cache_key u);
                                 CALL url; SETEX (cache_key u) expiration v] |})
  | Miss_stored (u : string) (c : Z) (took : N) (result : str) (v : string) :
      utf8_encode url = Some u ->
      CallCounter w u = Some c -> c < LLONG_MAX ->
      truthy (CacheEntry w u) = false ->
      func (clock w) url = (took, inr result) ->
      utf8_encode result = Some v ->
      invalid_expire expiration (clock w + Z.of_N took) = false ->
      call_path expiration func url w
        (inr result,
         {| db := <[cache_key u :=
                      Entry v (Some (clock w + Z.of_N took + expiration * 1000))]>
                    (<[count_key u := bumped w u c]> (db w));
            clock := clock w + Z.of_N took;
            trace := trace w ++ [INCR (count_key u); GET (cache_key u);
                                 CALL url; SETEX (cache_key u) expiration v] |}).

(** ** Sample worlds

    An empty store at time 0, a url, and a few wrapped functions: one that
    answers ["A"] during the first second and ["B"] afterwards, one that
    answers the empty string, one that raises; and an HTTP client that gets
    a 404 page. *)

Definition world0 : world := {| db := ∅; clock := 0; trace := [] |}.

Definition url_x : str := str_of_ascii "http://x".
Definition url_y : str := str_of_ascii "http://y".

Definition fetch_A_then_B : fetcher :=
  fun t _ => (5%N, inr (str_of_ascii (if t <? 1000 then "A" else "B"))).

Definition fetch_empty : fetcher := fun _ _ => (5%N, inr []).

Definition fetch_down : fetcher := fun _ _ => (5%N, inl (Raised "ConnectionError")).

Definition requests_get_404 : http :=
  fun _ _ => (5%N, inr (Response 404 (str_of_ascii "Not Found"))).

(** A caller who visits [url_x] twice and [url_y] once. *)
Definition three_visits : list action :=
  [Visit url_x; Wait 2000; Visit url_y; Visit url_x].

(** The world after a call that cached the empty string for [url_x]. *)
Definition world_empty_entry : world :=
  snd (wrapper 10 fetch_empty url_x world0).

(** ** The script (web.py, lines 62-72)

    Run as a program, the file fetches one fixed url twice and prints, after
    each fetch, the page and the counter of the url.  What is printed is a
    state of its own beside the world: it stays printed when a later
    statement raises.  The counter is read with a GET of [count:<url>];
    [.decode] on the [None] of a missing key raises [AttributeError].

    Each fetch and each reading of the counter is a blocking round trip, so
    time goes by between them: [lag1] from the first fetch to the first
    reading of the counter, [lag2] from there to the second fetch, [lag3]
    from the second fetch to the second reading.  An entry that was live at
    the first fetch may have expired at the second. *)

Record process := Process { stdout : list str; outside : world }.

Definition IO (A : Type) : Type := process -> (exn + A) * process.

Definition lift {A} (m : M A) : IO A :=
  fun p =>
    let '(r, w') := m (outside p) in
    (r, {| stdout := stdout p; outside := w' |}).

Definition print (line : str) : IO unit :=
  fun p => (inr tt, {| stdout := stdout p ++ [line]; outside := outside p |}).

Definition pause (ms : N) : IO unit :=
  fun p => (inr tt, {| stdout := stdout p; outside := sleep ms (outside p) |}).

Definition io_bind {A B} (m : IO A) (k : A -> IO B) : IO B :=
  fun p =>
    match m p with
    | (inr a, p') => k a p'
    | (inl e, p') => (inl e, p')
    end.

Notation "x <~ m ;; k" := (io_bind m (fun x => k))
  (at level 100, m at next level, right associativity).

Definition main_url_text : string :=
  ("http://slowwly.robertomurray.co.uk"
   ++ "/delay/1000/url/http://www.example.com")%string.

Definition main_url : str := str_of_ascii main_url_text.

(** [redis.Redis().get(f'count:{url}').decode('utf-8')] *)
Definition read_count (url : str) : M str :=
  cached <- redis_get (str_of_ascii "count:" ++ url) ;;
  match cached with
  | Some b => bytes_decode b
  | None => raise (Raised "AttributeError")
  end.

Definition main (requests_get : http) (lag1 lag2 lag3 : N) : IO unit :=
  page <~ lift (get_page requests_get main_url) ;;
  _ <~ print page ;;
  _ <~ pause lag1 ;;
  count <~ lift (read_count main_url) ;;
  _ <~ print (str_of_ascii "Count: " ++ count) ;;
  _ <~ pause lag2 ;;
  page' <~ lift (get_page requests_get main_url) ;;
  _ <~ print page' ;;
  _ <~ pause lag3 ;;
  count' <~ lift (read_count main_url) ;;
  print (str_of_ascii "Count: " ++ count').

(** ** More of the caller

    What the calls of a caller returned, in order; and a caller who comes
    back to one url after each of a list of waits. *)

Fixpoint outcomes (g : str -> M str) (acts : list action) (w : world)
  : list (exn + str) :=
  match acts with
  | [] => []
  | Wait ms :: rest => outcomes g rest (sleep ms w)
  | Visit url :: rest => fst (g url w) :: outcomes g rest (snd (g url w))
  end.

Fixpoint revisit (url : str) (waits : list N) : list action :=
  match waits with
  | [] => []
  | ms :: rest => Wait ms :: Visit url :: revisit url rest
  end.

Fixpoint total (waits : list N) : Z :=
  match waits with
  | [] => 0
  | ms :: rest => Z.of_N ms + total rest
  end.

(** ** More sample worlds

    A url with a lone surrogate; a wrapped function whose answer has one; a
    store whose counter of [url_x] is not a number, and one where a page is
    cached beside it; a store where the entry of [url_x] is not UTF-8; an
    HTTP client that gets a page, and one that gets no answer. *)

Definition url_surrogate : str := [0x68; 0xD800]%N.

Definition fetch_surrogate : fetcher := fun _ _ => (5%N, inr [0xDC00%N]).

Definition world_bad_counter : world :=
  store "count:http://x" (Entry "many" None) world0.

Definition world_bad_counter_cached : world :=
  store "cache:http://x" (Entry "A" None) world_bad_counter.

Definition world_bad_entry : world :=
  store "cache:http://x" (Entry (String (byte 0xFF%N) "") None) world0.

Definition requests_get_ok : http :=
  fun _ _ => (1200%N, inr (Response 200 (str_of_ascii "<html>"))).

Definition requests_get_down : http :=
  fun _ _ => (30000%N, inl (Raised "ConnectionError")).

Definition process0 : process := {| stdout := []; outside := world0 |}.

(** The process after a first run of the script: the page is cached. *)
Definition process_cached : process :=
  snd (main requests_get_ok 2 3 2 process0).

(** * Part III: properties *)

Local Open Scope N_scope.

Example utf8_encode_sample :
  utf8_encode [0x41; 0xE9; 0x20AC; 0x1F600] = Some "Aé€😀"%string
  /\ String.length "Aé€😀" = 10%nat
  /\ utf8_decode "Aé€😀" = Some [0x41; 0xE9; 0x20AC; 0x1F600].
Proof. vm_compute. repeat split. Qed.

Example utf8_encode_surrogate : utf8_encode [0x41; 0xD800] = None.
Proof. reflexivity. Qed.

(** Overlong forms, encoded surrogates, code points past [0x10FFFF],
    stray continuation bytes and cut sequences do not decode. *)
Example utf8_decode_rejects :
  utf8_decode (String (byte 0xC0) (String (byte 0x80) "")) = None
  /\ utf8_decode (String (byte 0xE0) (String (byte 0x80) (String (byte 0x80) ""))) = None
  /\ utf8_decode (String (byte 0xED) (String (byte 0xA0) (String (byte 0x80) ""))) = None
  /\ utf8_decode (String (byte 0xF4) (String (byte 0x90)
                    (String (byte 0x80) (String (byte 0x80) "")))) = None
  /\ utf8_decode (String (byte 0x80) "") = None
  /\ utf8_decode (String (byte 0xE2) (String (byte 0x82) "")) = None
  /\ utf8_decode (String (byte 0xFF) "") = None
  /\ utf8_decode (String (byte 0xF4) (String (byte 0x8F)
                    (String (byte 0xBF) (String (byte 0xBF) "")))) = Some [0x10FFFF].
Proof. vm_compute. repeat split. Qed.

#[local] Ltac Zify.zify_post_hook ::= Z.to_euclidean_division_equations.

(** *** Bit operations as arithmetic *)

Lemma lor_disjoint (k a b : N) :
  a mod 2 ^ k = 0 -> b < 2 ^ k -> N.lor a b = a + b.
Proof.
  intros Ha Hb.
  assert (Hland : N.land a b = 0).
  { apply N.bits_inj_0. intros n. rewrite N.land_spec.
    destruct (N.lt_ge_cases n k) as [Hn | Hn].
    - rewrite (N.div_mod a (2 ^ k)), Ha, N.add_0_r by (apply N.pow_nonzero; lia).
      rewrite N.mul_comm, N.mul_pow2_bits_low by exact Hn. reflexivity.
    - rewrite andb_comm.
      assert (Hbit : N.testbit b n = false).
      { rewrite N.testbit_eqb.
        rewrite N.div_small; [reflexivity |].
        eapply N.lt_le_trans; [exact Hb |].
        apply N.pow_le_mono_r; lia. }
      rewrite Hbit. reflexivity. }
  rewrite <- N.lxor_lor by exact Hland.
  symmetry. apply N.add_nocarry_lxor. exact Hland.
Qed.

Lemma ord_byte (n : N) : n < 256 -> ord (byte n) = n.
Proof. intros H. unfold ord, byte. apply N_ascii_embedding. exact H. Qed.

Lemma byte_ord (b : ascii) : byte (ord b) = b.
Proof. unfold ord, byte. apply ascii_N_embedding. Qed.

Lemma land_3F (x : N) : N.land x 0x3F = x mod 64.
Proof. change 0x3F with (N.ones 6). rewrite N.land_ones. reflexivity. Qed.

Lemma land_1F (x : N) : N.land x 0x1F = x mod 32.
Proof. change 0x1F with (N.ones 5). rewrite N.land_ones. reflexivity. Qed.

Lemma land_0F (x : N) : N.land x 0x0F = x mod 16.
Proof. change 0x0F with (N.ones 4). rewrite N.land_ones. reflexivity. Qed.

Lemma land_07 (x : N) : N.land x 0x07 = x mod 8.
Proof. change 0x07 with (N.ones 3). rewrite N.land_ones. reflexivity. Qed.

(** A continuation byte [0x80 | x] carrying the six bits [x]. *)
Lemma ord_cont (x : N) :
  ord (byte (N.lor 0x80 (N.land x 0x3F))) = 128 + x mod 64.
Proof.
  rewrite land_3F.
  rewrite (lor_disjoint 6) by (change (2 ^ 6) with 64; first [reflexivity | lia]).
  apply ord_byte. lia.
Qed.

Lemma ord_lead (tag k x : N) :
  tag mod 2 ^ k = 0 -> x < 2 ^ k -> tag + 2 ^ k <= 256 ->
  ord (byte (N.lor tag x)) = tag + x.
Proof.
  intros Ht Hx Hb. rewrite (lor_disjoint k) by assumption.
  apply ord_byte. lia.
Qed.

Lemma append_String (a : ascii) (s t : string) :
  (String a s ++ t)%string = String a (s ++ t)%string.
Proof. reflexivity. Qed.

Lemma append_Empty (t : string) : (EmptyString ++ t)%string = t.
Proof. reflexivity. Qed.

Lemma utf8_decode_String (b0 : ascii) (r0 : string) :
  utf8_decode (String b0 r0)
  = let n0 := ord b0 in
      if n0 <? 0x80 then
        match utf8_decode r0 with Some s => Some (n0 :: s) | None => None end
      else if n0 <? 0xC0 then None
      else if n0 <? 0xE0 then
        match r0 with
        | String b1 r1 =>
            let c := N.lor (N.shiftl (N.land n0 0x1F) 6) (cont_bits b1) in
            if is_continuation b1 && (0x80 <=? c) then
              match utf8_decode r1 with Some s => Some (c :: s) | None => None end
            else None
        | _ => None
        end
      else if n0 <? 0xF0 then
        match r0 with
        | String b1 (String b2 r2) =>
            let c := N.lor (N.shiftl (N.land n0 0x0F) 12)
                       (N.lor (N.shiftl (cont_bits b1) 6) (cont_bits b2)) in
            if is_continuation b1 && is_continuation b2
               && (0x800 <=? c) && negb (is_surrogate c) then
              match utf8_decode r2 with Some s => Some (c :: s) | None => None end
            else None
        | _ => None
        end
      else if n0 <? 0xF8 then
        match r0 with
        | String b1 (String b2 (String b3 r3)) =>
            let c := N.lor (N.shiftl (N.land n0 0x07) 18)
                       (N.lor (N.shiftl (cont_bits b1) 12)
                          (N.lor (N.shiftl (cont_bits b2) 6) (cont_bits b3))) in
            if is_continuation b1 && is_continuation b2 && is_continuation b3
               && (0x10000 <=? c) && (c <? 0x110000) then
              match utf8_decode r3 with Some s => Some (c :: s) | None => None end
            else None
        | _ => None
        end
      else None.
Proof. reflexivity. Qed.

Ltac cmp_step :=
  match goal with
  | |- context [?a <? ?b] =>
      first [ replace (a <? b) with true by (symmetry; apply N.ltb_lt; lia)
            | replace (a <? b) with false by (symmetry; apply N.ltb_ge; lia) ]
  | |- context [?a <=? ?b] =>
      first [ replace (a <=? b) with true by (symmetry; apply N.leb_le; lia)
            | replace (a <=? b) with false by (symmetry; apply N.leb_gt; lia) ]
  end.

Ltac cmp := repeat cmp_step; cbn [andb orb negb].

Ltac shifts :=
  repeat rewrite N.shiftr_div_pow2;
  repeat rewrite N.shiftl_mul_pow2;
  change (2 ^ 6) with 64 in *; change (2 ^ 12) with 4096 in *;
  change (2 ^ 18) with 262144 in *.

(** The decoder, by the class of the lead byte. *)

Lemma utf8_decode_1 (b0 : ascii) (r0 : string) :
  ord b0 < 0x80 ->
  utf8_decode (String b0 r0)
  = match utf8_decode r0 with Some s => Some (ord b0 :: s) | None => None end.
Proof. intros H. rewrite utf8_decode_String. cbv zeta. cmp. reflexivity. Qed.

Lemma utf8_decode_2 (b0 b1 : ascii) (r1 : string) :
  0xC0 <= ord b0 < 0xE0 ->
  utf8_decode (String b0 (String b1 r1))
  = let c := N.lor (N.shiftl (N.land (ord b0) 0x1F) 6) (cont_bits b1) in
    if is_continuation b1 && (0x80 <=? c) then
      match utf8_decode r1 with Some s => Some (c :: s) | None => None end
    else None.
Proof.
  intros H. rewrite utf8_decode_String. cbv zeta.
  replace (ord b0 <? 0x80) with false by (symmetry; apply N.ltb_ge; lia).
  replace (ord b0 <? 0xC0) with false by (symmetry; apply N.ltb_ge; lia).
  replace (ord b0 <? 0xE0) with true by (symmetry; apply N.ltb_lt; lia).
  reflexivity.
Qed.

Lemma utf8_decode_3 (b0 b1 b2 : ascii) (r2 : string) :
  0xE0 <= ord b0 < 0xF0 ->
  utf8_decode (String b0 (String b1 (String b2 r2)))
  = let c := N.lor (N.shiftl (N.land (ord b0) 0x0F) 12)
               (N.lor (N.shiftl (cont_bits b1) 6) (cont_bits b2)) in
    if is_continuation b1 && is_continuation b2
       && (0x800 <=? c) && negb (is_surrogate c) then
      match utf8_decode r2 with Some s => Some (c :: s) | None => None end
    else None.
Proof.
  intros H. rewrite utf8_decode_String. cbv zeta.
  replace (ord b0 <? 0x80) with false by (symmetry; apply N.ltb_ge; lia).
  replace (ord b0 <? 0xC0) with false by (symmetry; apply N.ltb_ge; lia).
  replace (ord b0 <? 0xE0) with false by (symmetry; apply N.ltb_ge; lia).
  replace (ord b0 <? 0xF0) with true by (symmetry; apply N.ltb_lt; lia).
  reflexivity.
Qed.

Lemma utf8_decode_4 (b0 b1 b2 b3 : ascii) (r3 : string) :
  0xF0 <= ord b0 < 0xF8 ->
  utf8_decode (String b0 (String b1 (String b2 (String b3 r3))))
  = let c := N.lor (N.shiftl (N.land (ord b0) 0x07) 18)
               (N.lor (N.shiftl (cont_bits b1) 12)
                  (N.lor (N.shiftl (cont_bits b2) 6) (cont_bits b3))) in
    if is_continuation b1 && is_continuation b2 && is_continuation b3
       && (0x10000 <=? c) && (c <? 0x110000) then
      match utf8_decode r3 with Some s => Some (c :: s) | None => None end
    else None.
Proof.
  intros H. rewrite utf8_decode_String. cbv zeta.
  replace (ord b0 <? 0x80) with false by (symmetry; apply N.ltb_ge; lia).
  replace (ord b0 <? 0xC0) with false by (symmetry; apply N.ltb_ge; lia).
  replace (ord b0 <? 0xE0) with false by (symmetry; apply N.ltb_ge; lia).
  replace (ord b0 <? 0xF0) with false by (symmetry; apply N.ltb_ge; lia).
  replace (ord b0 <? 0xF8) with true by (symmetry; apply N.ltb_lt; lia).
  reflexivity.
Qed.

Lemma cont_bits_cont (x : N) :
  cont_bits (byte (N.lor 0x80 (N.land x 0x3F))) = x mod 64.
Proof. unfold cont_bits. rewrite ord_cont, land_3F. lia. Qed.

Lemma is_continuation_cont (x : N) :
  is_continuation (byte (N.lor 0x80 (N.land x 0x3F))) = true.
Proof.
  unfold is_continuation. rewrite ord_cont.
  apply andb_true_intro. split; [apply N.leb_le | apply N.ltb_lt]; lia.
Qed.

(** Six-bit groups of a code point put back together. *)
Lemma regroup_2 (c : N) : c / 64 * 64 + c mod 64 = c.
Proof. lia. Qed.

Lemma regroup_3 (c : N) :
  c / 4096 * 4096 + ((c / 64) mod 64 * 64 + c mod 64) = c.
Proof. lia. Qed.

Lemma regroup_4 (c : N) :
  c / 262144 * 262144
  + ((c / 4096) mod 64 * 4096 + ((c / 64) mod 64 * 64 + c mod 64)) = c.
Proof. lia. Qed.

Lemma utf8_decode_encode_char (c : N) (bc rest : string) :
  utf8_encode_char c = Some bc ->
  utf8_decode (bc ++ rest)
  = match utf8_decode rest with Some s => Some (c :: s) | None => None end.
Proof.
  unfold utf8_encode_char.
  destruct (N.ltb_spec c 0x80) as [H1 | H1].
  { intros [= <-]. rewrite append_String, append_Empty.
    rewrite utf8_decode_1 by (rewrite ord_byte; lia).
    rewrite ord_byte by lia. reflexivity. }
  destruct (N.ltb_spec c 0x800) as [H2 | H2].
  { intros [= <-]. rewrite !append_String, append_Empty.
    assert (Hq : c / 64 < 32) by lia.
    assert (E0 : ord (byte (N.lor 0xC0 (N.shiftr c 6))) = 192 + c / 64).
    { rewrite (ord_lead 0xC0 5) by (shifts; first [reflexivity | cbn; lia]).
      shifts. reflexivity. }
    rewrite utf8_decode_2 by (rewrite E0; lia).
    cbv zeta. rewrite is_continuation_cont, cont_bits_cont, E0, land_1F.
    replace ((192 + c / 64) mod 32) with (c / 64) by lia.
    shifts.
    rewrite (lor_disjoint 6 (_ * 64)) by (change (2 ^ 6) with 64; lia).
    rewrite regroup_2. cmp. reflexivity. }
  destruct (N.ltb_spec c 0x10000) as [H3 | H3].
  { destruct (is_surrogate c) eqn:Hs; [discriminate |].
    intros [= <-]. rewrite !append_String, append_Empty.
    assert (Hq : c / 4096 < 16) by lia.
    assert (E0 : ord (byte (N.lor 0xE0 (N.shiftr c 12))) = 224 + c / 4096).
    { rewrite (ord_lead 0xE0 4) by (shifts; first [reflexivity | cbn; lia]).
      shifts. reflexivity. }
    rewrite utf8_decode_3 by (rewrite E0; lia).
    cbv zeta. rewrite !is_continuation_cont, !cont_bits_cont, E0, land_0F.
    replace ((224 + c / 4096) mod 16) with (c / 4096) by lia.
    shifts.
    rewrite (lor_disjoint 6 (_ * 64)) by (change (2 ^ 6) with 64; lia).
    rewrite (lor_disjoint 12 (_ * 4096)) by (change (2 ^ 12) with 4096; lia).
    rewrite regroup_3, Hs. cmp. reflexivity. }
  destruct (N.ltb_spec c 0x110000) as [H4 | H4]; [| discriminate].
  intros [= <-]. rewrite !append_String, append_Empty.
  assert (Hq : c / 262144 < 8) by lia.
  assert (E0 : ord (byte (N.lor 0xF0 (N.shiftr c 18))) = 240 + c / 262144).
  { rewrite (ord_lead 0xF0 3) by (shifts; first [reflexivity | cbn; lia]).
    shifts. reflexivity. }
  rewrite utf8_decode_4 by (rewrite E0; lia).
  cbv zeta. rewrite !is_continuation_cont, !cont_bits_cont, E0, land_07.
  replace ((240 + c / 262144) mod 8) with (c / 262144) by lia.
  shifts.
  rewrite (lor_disjoint 6 (_ * 64)) by (change (2 ^ 6) with 64; lia).
  rewrite (lor_disjoint 12 (_ * 4096)) by (change (2 ^ 12) with 4096; lia).
  rewrite (lor_disjoint 18 (_ * 262144)) by (change (2 ^ 18) with 262144; lia).
  rewrite regroup_4. cmp. reflexivity.
Qed.

Lemma append_assoc (s t u : string) :
  ((s ++ t) ++ u)%string = (s ++ (t ++ u))%string.
Proof.
  induction s as [| a s IH]; [reflexivity |].
  rewrite !append_String, IH. reflexivity.
Qed.

Lemma append_Empty_r (s : string) : (s ++ EmptyString)%string = s.
Proof.
  induction s as [| a s IH]; [reflexivity |].
  rewrite append_String, IH. reflexivity.
Qed.

(** Decoding what [utf8_encode] produced gives the [str] back. *)
Lemma utf8_decode_encode_app (s : str) (b rest : string) :
  utf8_encode s = Some b ->
  utf8_decode (b ++ rest)
  = match utf8_decode rest with Some t => Some (s ++ t) | None => None end.
Proof.
  revert b. induction s as [| c s IH]; intros b.
  - intros [= <-]. rewrite append_Empty. destruct (utf8_decode rest); reflexivity.
  - cbn [utf8_encode].
    destruct (utf8_encode_char c) as [bc |] eqn:Hc; [| discriminate].
    destruct (utf8_encode s) as [bs |] eqn:Hs; [| discriminate].
    intros [= <-].
    rewrite append_assoc, (utf8_decode_encode_char c bc) by exact Hc.
    rewrite (IH bs) by reflexivity.
    destruct (utf8_decode rest); reflexivity.
Qed.

Lemma utf8_decode_encode (s : str) (b : string) :
  utf8_encode s = Some b -> utf8_decode b = Some s.
Proof.
  intros H. rewrite <- (append_Empty_r b).
  rewrite (utf8_decode_encode_app s b EmptyString H).
  cbn [utf8_decode]. rewrite app_nil_r. reflexivity.
Qed.

Lemma utf8_encode_inj (s t : str) (b : string) :
  utf8_encode s = Some b -> utf8_encode t = Some b -> s = t.
Proof.
  intros Hs Ht.
  apply utf8_decode_encode in Hs. apply utf8_decode_encode in Ht.
  congruence.
Qed.

Lemma utf8_encode_app (s t : str) :
  utf8_encode (s ++ t)
  = match utf8_encode s, utf8_encode t with
    | Some a, Some b => Some (a ++ b)%string
    | _, _ => None
    end.
Proof.
  induction s as [| c s IH].
  - cbn [app utf8_encode]. destruct (utf8_encode t); reflexivity.
  - cbn [app utf8_encode]. rewrite IH.
    destruct (utf8_encode_char c) as [bc |]; [| reflexivity].
    destruct (utf8_encode s) as [bs |]; [| reflexivity].
    destruct (utf8_encode t) as [bt |]; [| reflexivity].
    rewrite append_assoc. reflexivity.
Qed.

(** The empty [str] is the only one that encodes to the empty [bytes]. *)
Lemma utf8_encode_char_nonempty (c : N) : utf8_encode_char c <> Some EmptyString.
Proof.
  unfold utf8_encode_char.
  repeat match goal with |- context [if ?b then _ else _] => destruct b end;
    discriminate.
Qed.

Lemma utf8_encode_empty (s : str) :
  utf8_encode s = Some EmptyString <-> s = [].
Proof.
  split; [| intros ->; reflexivity].
  destruct s as [| c s]; [reflexivity |].
  cbn [utf8_encode].
  destruct (utf8_encode_char c) as [[| a bc] |] eqn:Hc.
  - destruct (utf8_encode_char_nonempty c Hc).
  - destruct (utf8_encode s); discriminate.
  - discriminate.
Qed.

(** An ASCII literal encodes to itself. *)
Lemma utf8_encode_ascii (s : string) :
  is_ascii s -> utf8_encode (str_of_ascii s) = Some s.
Proof.
  unfold is_ascii. induction s as [| a s IH]; [reflexivity |].
  cbn [str_of_ascii utf8_encode]. intros H.
  apply Forall_cons_iff in H as [Ha Hs].
  rewrite (IH Hs). unfold utf8_encode_char.
  replace (ord a <? 0x80) with true by (symmetry; apply N.ltb_lt; exact Ha).
  rewrite byte_ord. reflexivity.
Qed.

Local Open Scope Z_scope.

Example string2ll_samples :
  ll2string 0 = "0"%string /\ ll2string 12 = "12"%string
  /\ ll2string (-7) = "-7"%string
  /\ string2ll "42" = Some 42 /\ string2ll "-7" = Some (-7)
  /\ string2ll "007" = None /\ string2ll "" = None /\ string2ll "4 2" = None
  /\ string2ll "-0" = None
  /\ string2ll "9223372036854775807" = Some LLONG_MAX
  /\ string2ll "9223372036854775808" = None.
Proof. vm_compute. repeat split. Qed.

Lemma to_int_canonical (z : Z) :
  Z.to_int z <> Decimal.Pos Decimal.Nil /\ Z.to_int z <> Decimal.Neg Decimal.Nil.
Proof.
  destruct z as [| p | p]; cbn [Z.to_int]; split; try discriminate.
  - intros [= H]. exact (DecimalPos.Unsigned.to_uint_nonnil p H).
  - intros [= H]. exact (DecimalPos.Unsigned.to_uint_nonnil p H).
Qed.

Lemma string2ll_ll2string (z : Z) :
  LLONG_MIN <= z <= LLONG_MAX -> string2ll (ll2string z) = Some z.
Proof.
  intros [Hlo Hhi]. unfold string2ll, ll2string.
  destruct (to_int_canonical z) as [Hp Hn].
  rewrite NilZero.isi by assumption.
  cbv zeta. rewrite DecimalZ.of_to, String.eqb_refl.
  replace (LLONG_MIN <=? z) with true by (symmetry; apply Z.leb_le; exact Hlo).
  replace (z <=? LLONG_MAX) with true by (symmetry; apply Z.leb_le; exact Hhi).
  reflexivity.
Qed.

Lemma string2ll_Some (s : string) (z : Z) :
  string2ll s = Some z -> s = ll2string z /\ LLONG_MIN <= z <= LLONG_MAX.
Proof.
  unfold string2ll.
  destruct (NilZero.int_of_string s) as [d |]; [| discriminate].
  cbv zeta.
  destruct (String.eqb_spec (ll2string (Z.of_int d)) s) as [He | He];
    [| discriminate].
  destruct (Z.leb_spec LLONG_MIN (Z.of_int d)); [| discriminate].
  destruct (Z.leb_spec (Z.of_int d) LLONG_MAX); [| discriminate].
  cbn [andb]. intros [= <-]. split; [symmetry; exact He | lia].
Qed.

(** ** Keys *)

Lemma is_ascii_count : is_ascii "count:".
Proof. unfold is_ascii. cbn. repeat constructor. Qed.

Lemma is_ascii_cache : is_ascii "cache:".
Proof. unfold is_ascii. cbn. repeat constructor. Qed.

Lemma encode_prefixed (prefix : string) (url : str) :
  is_ascii prefix ->
  utf8_encode (str_of_ascii prefix ++ url)
  = option_map (String.append prefix) (utf8_encode url).
Proof.
  intros H. rewrite utf8_encode_app, (utf8_encode_ascii prefix H).
  destruct (utf8_encode url); reflexivity.
Qed.

Lemma count_cache_ne (u u' : string) : count_key u <> cache_key u'.
Proof. unfold count_key, cache_key. rewrite !append_String. discriminate. Qed.

Lemma count_key_inj (u u' : string) : count_key u = count_key u' -> u = u'.
Proof. unfold count_key. apply String.app_inj. Qed.

(** ** The store *)

Lemma live_store_ne (k k' : string) (e : entry) (w : world) :
  k <> k' -> live (store k e w) k' = live w k'.
Proof.
  intros H. unfold live, store. cbn [db clock].
  rewrite lookup_insert_ne by exact H. reflexivity.
Qed.

(** ** One call of the wrapper, path by path *)

Lemma wrapper_sent (expiration : Z) (func : fetcher) (url : str) (u : string) :
  utf8_encode url = Some u ->
  wrapper expiration func url
  = (_ <- server_incr (count_key u) ;;
     cached_result <- server_get (cache_key u) ;;
     match cached_result with
     | Some (String _ _ as cached) => bytes_decode cached
     | Some EmptyString | None =>
         result <- call func url ;;
         _ <- (v <- encode_arg result ;; server_setex (cache_key u) expiration v) ;;
         ret result
     end).
Proof.
  intros Hu. unfold wrapper, redis_incr, redis_get, redis_setex, encode_arg.
  rewrite !encode_prefixed by first [exact is_ascii_count | exact is_ascii_cache].
  rewrite Hu. reflexivity.
Qed.

Lemma wrapper_unencodable (expiration : Z) (func : fetcher) (url : str) (w : world) :
  utf8_encode url = None ->
  wrapper expiration func url w = (inl UnicodeEncodeError, w).
Proof.
  intros Hu. unfold wrapper, redis_incr, encode_arg.
  rewrite encode_prefixed by exact is_ascii_count.
  rewrite Hu. reflexivity.
Qed.

Lemma server_incr_counter (w : world) (u : string) (c : Z) :
  CallCounter w u = Some c -> c < LLONG_MAX ->
  server_incr (count_key u) w
  = (inr (c + 1), store (count_key u) (bumped w u c) (log (INCR (count_key u)) w)).
Proof.
  unfold CallCounter, server_incr, bumped, expiry. intros Hc Hlt.
  destruct (live w (count_key u)) as [e |].
  - rewrite Hc.
    replace (c <? LLONG_MAX) with true by (symmetry; apply Z.ltb_lt; exact Hlt).
    reflexivity.
  - injection Hc as <-. reflexivity.
Qed.

Lemma server_incr_refused (w : world) (u : string) :
  CallCounter w u = None \/ CallCounter w u = Some LLONG_MAX ->
  server_incr (count_key u) w
  = (inl ResponseError, log (INCR (count_key u)) w).
Proof.
  unfold CallCounter, server_incr.
  destruct (live w (count_key u)) as [e |].
  - intros [-> | ->]; [reflexivity |].
    rewrite Z.ltb_irrefl. reflexivity.
  - intros [H | H]; discriminate.
Qed.

Section OneCall.
Variables (expiration : Z) (func : fetcher).
Variables (url : str) (u : string) (w : world) (c : Z).
Hypothesis Hurl : utf8_encode url = Some u.
Hypothesis Hcount : CallCounter w u = Some c.
Hypothesis Hroom : c < LLONG_MAX.

Local Abbreviation ck := (count_key u).
Local Abbreviation cak := (cache_key u).

Lemma cache_after_incr :
  option_map value
    (live (store ck (bumped w u c) (log (INCR ck) w)) cak)
  = CacheEntry w u.
Proof.
  rewrite live_store_ne by apply count_cache_ne. reflexivity.
Qed.

(** Cache hit: the stored bytes are decoded; nothing else happens. *)
Lemma wrapper_hit (a : ascii) (s : string) :
  CacheEntry w u = Some (String a s) ->
  wrapper expiration func url w
  = (match utf8_decode (String a s) with
     | Some r => inr r
     | None => inl UnicodeDecodeError
     end,
     {| db := <[ck := bumped w u c]> (db w);
        clock := clock w;
        trace := trace w ++ [INCR ck; GET cak] |}).
Proof.
  intros Hhit. rewrite (wrapper_sent _ _ _ _ Hurl).
  unfold bind at 1. rewrite (server_incr_counter w u c Hcount Hroom).
  unfold bind at 1, server_get. rewrite cache_after_incr, Hhit.
  unfold bytes_decode, log, store. cbn [db clock trace].
  rewrite <- app_assoc. cbn [app].
  destruct (utf8_decode (String a s)); reflexivity.
Qed.

(** Cache miss: [func] is called once; what happens next depends on it. *)
Lemma wrapper_miss (took : N) (outcome : exn + str) :
  truthy (CacheEntry w u) = false ->
  func (clock w) url = (took, outcome) ->
  wrapper expiration func url w
  = let t := clock w + Z.of_N took in
    let counted := <[ck := bumped w u c]> (db w) in
    let called := trace w ++ [INCR ck; GET cak; CALL url] in
    match outcome with
    | inl e => (inl e, {| db := counted; clock := t; trace := called |})
    | inr result =>
        match utf8_encode result with
        | None =>
            (inl UnicodeEncodeError,
             {| db := counted; clock := t; trace := called |})
        | Some v =>
            if invalid_expire expiration t then
              (inl ResponseError,
               {| db := counted; clock := t;
                  trace := called ++ [SETEX cak expiration v] |})
            else
              (inr result,
               {| db := <[cak := Entry v (Some (t + expiration * 1000))]> counted;
                  clock := t;
                  trace := called ++ [SETEX cak expiration v] |})
        end
    end.
Proof.
  intros Hmiss Hf. rewrite (wrapper_sent _ _ _ _ Hurl).
  unfold bind at 1. rewrite (server_incr_counter w u c Hcount Hroom).
  unfold bind at 1, server_get. rewrite cache_after_incr.
  assert (Hcall :
    call func url (log (GET cak) (store ck (bumped w u c) (log (INCR ck) w)))
    = (outcome,
       {| db := <[ck := bumped w u c]> (db w);
          clock := clock w + Z.of_N took;
          trace := trace w ++ [INCR ck; GET cak; CALL url] |})).
  { unfold call, log, store, sleep. cbn [db clock trace]. rewrite Hf.
    rewrite <- !app_assoc. reflexivity. }
  cbv zeta.
  destruct (CacheEntry w u) as [[| a s] |]; try discriminate Hmiss;
    cbn [option_map].
  all: unfold bind at 1; rewrite Hcall.
  all: destruct outcome as [e | result]; [reflexivity |].
  all: unfold bind, encode_arg; destruct (utf8_encode result) as [v |];
    [| reflexivity].
  all: unfold ret, server_setex, log, store; cbn [db clock trace].
  all: destruct (invalid_expire expiration (clock w + Z.of_N took));
    reflexivity.
Qed.

Lemma wrapper_miss_raises (took : N) (e : exn) :
  truthy (CacheEntry w u) = false ->
  func (clock w) url = (took, inl e) ->
  wrapper expiration func url w
  = (inl e,
     {| db := <[ck := bumped w u c]> (db w);
        clock := clock w + Z.of_N took;
        trace := trace w ++ [INCR ck; GET cak; CALL url] |}).
Proof. intros Hmiss Hf. rewrite (wrapper_miss _ _ Hmiss Hf). reflexivity. Qed.

Lemma wrapper_miss_stores (took : N) (result : str) (v : string) :
  truthy (CacheEntry w u) = false ->
  func (clock w) url = (took, inr result) ->
  utf8_encode result = Some v ->
  invalid_expire expiration (clock w + Z.of_N took) = false ->
  wrapper expiration func url w
  = (inr result,
     {| db := <[cak := Entry v (Some (clock w + Z.of_N took + expiration * 1000))]>
                (<[ck := bumped w u c]> (db w));
        clock := clock w + Z.of_N took;
        trace := trace w ++ [INCR ck; GET cak; CALL url;
                             SETEX cak expiration v] |}).
Proof.
  intros Hmiss Hf Hv Hok. rewrite (wrapper_miss _ _ Hmiss Hf).
  cbv zeta. rewrite Hv, Hok, <- app_assoc. reflexivity.
Qed.

End OneCall.

Lemma CallCounter_le (w : world) (u : string) (c : Z) :
  CallCounter w u = Some c -> LLONG_MIN <= c <= LLONG_MAX.
Proof.
  unfold CallCounter. destruct (live w (count_key u)) as [e |].
  - intros H. apply string2ll_Some in H. tauto.
  - intros [= <-]. unfold LLONG_MIN, LLONG_MAX. lia.
Qed.

(** Every call takes one of the paths. *)
Lemma wrapper_path (expiration : Z) (func : fetcher) (url : str) (w : world) :
  call_path expiration func url w (wrapper expiration func url w).
Proof.
  destruct (utf8_encode url) as [u |] eqn:Hurl.
  2: { rewrite wrapper_unencodable by exact Hurl. apply Unencodable, Hurl. }
  destruct (CallCounter w u) as [c |] eqn:Hcount.
  2: { rewrite (wrapper_sent _ _ _ _ Hurl). unfold bind at 1.
       rewrite (server_incr_refused w u (or_introl Hcount)).
       apply (Refused _ _ _ _ u Hurl). left. exact Hcount. }
  destruct (Z.eq_dec c LLONG_MAX) as [-> | Hne].
  { rewrite (wrapper_sent _ _ _ _ Hurl). unfold bind at 1.
    rewrite (server_incr_refused w u (or_intror Hcount)).
    apply (Refused _ _ _ _ u Hurl). right. exact Hcount. }
  assert (Hroom : c < LLONG_MAX) by (pose proof (CallCounter_le w u c Hcount); lia).
  destruct (truthy (CacheEntry w u)) eqn:Htruthy.
  { destruct (CacheEntry w u) as [[| a s] |] eqn:Hcache; try discriminate.
    rewrite (wrapper_hit _ func _ _ _ _ Hurl Hcount Hroom a s Hcache).
    apply (Hit _ _ _ _ u c a s); assumption. }
  destruct (func (clock w) url) as [took outcome] eqn:Hf.
  rewrite (wrapper_miss _ _ _ _ _ _ Hurl Hcount Hroom took outcome Htruthy Hf).
  cbv zeta. destruct outcome as [e | result].
  { apply (Miss_raised _ _ _ _ u c took e); assumption. }
  destruct (utf8_encode result) as [v |] eqn:Hv.
  2: { apply (Miss_unencodable _ _ _ _ u c took result); assumption. }
  destruct (invalid_expire expiration (clock w + Z.of_N took)) eqn:Hexp.
  - rewrite <- app_assoc.
    apply (Miss_rejected _ _ _ _ u c took result v); assumption.
  - rewrite <- app_assoc.
    apply (Miss_stored _ _ _ _ u c took result v); assumption.
Qed.

(** ** Frame and clock *)

Lemma wrapper_other_keys (expiration : Z) (func : fetcher) (url : str)
    (w : world) (k : string) :
  (forall u, utf8_encode url = Some u -> k <> count_key u /\ k <> cache_key u) ->
  db (snd (wrapper expiration func url w)) !! k = db w !! k.
Proof.
  intros Hk.
  destruct (wrapper_path expiration func url w);
    cbn [snd db log]; try reflexivity;
    destruct (Hk u ltac:(assumption)) as [Hc Ha];
    rewrite ?(lookup_insert_ne _ (cache_key u)) by congruence;
    rewrite ?(lookup_insert_ne _ (count_key u)) by congruence;
    reflexivity.
Qed.

Lemma wrapper_clock_mono (expiration : Z) (func : fetcher) (url : str) (w : world) :
  clock w <= clock (snd (wrapper expiration func url w)).
Proof.
  destruct (wrapper_path expiration func url w); cbn [snd clock log]; lia.
Qed.

(** A call touches the counter of [u] only by its own INCR. *)
Lemma wrapper_counter_key (expiration : Z) (func : fetcher) (url : str)
    (w : world) (u : string) :
  db (snd (wrapper expiration func url w)) !! count_key u = db w !! count_key u
  \/ (utf8_encode url = Some u
      /\ exists c, CallCounter w u = Some c /\ c < LLONG_MAX
         /\ db (snd (wrapper expiration func url w)) !! count_key u
            = Some (bumped w u c)).
Proof.
  destruct (utf8_encode url) as [u' |] eqn:Hurl.
  2: { left. rewrite wrapper_unencodable by exact Hurl. reflexivity. }
  destruct (decide (u' = u)) as [-> | Hne].
  - destruct (wrapper_path expiration func url w) as
      [ Hu | u0 Hu Hc | u0 c a s Hu Hc Hr Hh | u0 c took e Hu Hc Hr Hm Hf
      | u0 c took result Hu Hc Hr Hm Hf Hv | u0 c took result v Hu Hc Hr Hm Hf Hv Hx
      | u0 c took result v Hu Hc Hr Hm Hf Hv Hx ];
      cbn [snd db log]; try (left; reflexivity);
      assert (u0 = u) as -> by congruence;
      right; (split; [reflexivity |]); exists c; (split; [exact Hc |]);
      (split; [exact Hr |]);
      rewrite ?(lookup_insert_ne _ (cache_key u))
        by (intros E; symmetry in E; exact (count_cache_ne _ _ E));
      apply lookup_insert_eq.
  - left. apply wrapper_other_keys. intros u0 Hu0.
    assert (u0 = u') as -> by congruence. split.
    + intros E. apply count_key_inj in E. congruence.
    + apply count_cache_ne.
Qed.

Lemma live_None_later (w w' : world) (k : string) :
  live w k = None -> db w' !! k = db w !! k -> clock w <= clock w' ->
  live w' k = None.
Proof.
  unfold live, expired. intros H -> Hle.
  destruct (db w !! k) as [[v [t |]] |]; cbn [expire_at] in *;
    try discriminate; [| reflexivity].
  destruct (Z.ltb_spec t (clock w)); [| discriminate].
  replace (t <? clock w') with true by (symmetry; apply Z.ltb_lt; lia).
  reflexivity.
Qed.

(** ** The counter *)

Ltac path_cases H :=
  destruct H as
    [ Hu | u0 Hu Hc | u0 c0 a s Hu Hc Hr Hh | u0 c0 took e Hu Hc Hr Hm Hf
    | u0 c0 took result Hu Hc Hr Hm Hf Hv
    | u0 c0 took result v Hu Hc Hr Hm Hf Hv Hx
    | u0 c0 took result v Hu Hc Hr Hm Hf Hv Hx ].

Lemma count_ne_cache (u u' : string) : cache_key u <> count_key u'.
Proof. intros E. symmetry in E. exact (count_cache_ne _ _ E). Qed.

(** With room left in the counter, the call stores [c + 1]; the log grows
    by the INCR, the GET and what the path adds after them; the cache key
    is written by the SETEX the store accepted and by nothing else. *)
Lemma wrapper_bumps (expiration : Z) (func : fetcher) (url : str) (u : string)
    (w : world) (c : Z) :
  utf8_encode url = Some u -> CallCounter w u = Some c -> c < LLONG_MAX ->
  db (snd (wrapper expiration func url w)) !! count_key u = Some (bumped w u c)
  /\ exists rest,
       trace (snd (wrapper expiration func url w))
       = trace w ++ INCR (count_key u) :: GET (cache_key u) :: rest
       /\ (truthy (CacheEntry w u) = true /\ rest = []
           /\ db (snd (wrapper expiration func url w)) !! cache_key u
              = db w !! cache_key u
           \/ truthy (CacheEntry w u) = false /\ rest = [CALL url]
              /\ db (snd (wrapper expiration func url w)) !! cache_key u
                 = db w !! cache_key u
           \/ truthy (CacheEntry w u) = false
              /\ exists v,
                   rest = [CALL url; SETEX (cache_key u) expiration v]
                   /\ (db (snd (wrapper expiration func url w)) !! cache_key u
                       = db w !! cache_key u
                       \/ db (snd (wrapper expiration func url w)) !! cache_key u
                          = Some (Entry v
                                    (Some (clock (snd (wrapper expiration func url w))
                                           + expiration * 1000))))).
Proof.
  intros Hurl Hcount Hroom.
  pose proof (wrapper_path expiration func url w) as H.
  path_cases H; cbn [snd db trace clock log];
    try congruence;
    assert (u0 = u) as -> by congruence;
    try (destruct Hc as [Hc | Hc]; rewrite Hcount in Hc;
         [discriminate | injection Hc as ->; lia]);
    assert (c0 = c) as -> by congruence;
    (split;
     [ rewrite ?(lookup_insert_ne _ (cache_key u)) by apply count_ne_cache;
       apply lookup_insert_eq |]).
  - exists []. split; [reflexivity |]. left. rewrite Hh.
    repeat split. apply lookup_insert_ne, count_cache_ne.
  - exists [CALL url]. split; [reflexivity |]. right. left.
    repeat split; [exact Hm |]. apply lookup_insert_ne, count_cache_ne.
  - exists [CALL url]. split; [reflexivity |]. right. left.
    repeat split; [exact Hm |]. apply lookup_insert_ne, count_cache_ne.
  - exists [CALL url; SETEX (cache_key u) expiration v].
    split; [reflexivity |]. right. right. split; [exact Hm |].
    exists v. split; [reflexivity |]. left.
    apply lookup_insert_ne, count_cache_ne.
  - exists [CALL url; SETEX (cache_key u) expiration v].
    split; [reflexivity |]. right. right. split; [exact Hm |].
    exists v. split; [reflexivity |]. right. apply lookup_insert_eq.
Qed.

Lemma string2ll_bumped (w : world) (u : string) (c : Z) :
  CallCounter w u = Some c -> c < LLONG_MAX ->
  string2ll (value (bumped w u c)) = Some (c + 1).
Proof.
  intros Hc Hr. pose proof (CallCounter_le w u c Hc).
  unfold bumped. cbn [value]. apply string2ll_ll2string. lia.
Qed.

Lemma counts_CallCounter (w : world) (u : string) (n : Z) :
  counts w u n -> CallCounter w u = Some n.
Proof.
  unfold counts, CallCounter.
  intros [[-> H] | [Hn H]].
  - rewrite H. reflexivity.
  - unfold live. rewrite H. cbn [expired expire_at value].
    apply string2ll_ll2string. unfold LLONG_MIN. lia.
Qed.

Lemma counts_expiry (w : world) (u : string) (n : Z) :
  counts w u n -> expiry w (count_key u) = None.
Proof.
  unfold counts, expiry.
  intros [[-> H] | [Hn H]].
  - rewrite H. reflexivity.
  - unfold live. rewrite H. reflexivity.
Qed.

Lemma counts_later (w w' : world) (u : string) (n : Z) :
  counts w u n ->
  db w' !! count_key u = db w !! count_key u -> clock w <= clock w' ->
  counts w' u n.
Proof.
  intros [[-> H] | [Hn H]] Hdb Hclock.
  - left. split; [reflexivity |].
    exact (live_None_later w w' _ H Hdb Hclock).
  - right. split; [exact Hn |]. rewrite Hdb. exact H.
Qed.

(** One step of a caller moves the counter of [url] by one visit. *)
Lemma counts_step (expiration : Z) (func : fetcher) (url : str) (u : string)
    (w : world) (n : Z) (a : action) :
  utf8_encode url = Some u ->
  counts w u n -> n + visits url [a] <= LLONG_MAX ->
  counts (run (wrapper expiration func) [a] w) u (n + visits url [a]).
Proof.
  intros Hurl Hn Hroom. destruct a as [ms | url']; cbn [run visits] in *.
  - rewrite Z.add_0_r. apply (counts_later w); [exact Hn | reflexivity |].
    unfold sleep. cbn [clock]. lia.
  - destruct (decide (url' = url)) as [-> | Hne].
    + assert (Hnn : 0 <= n) by (destruct Hn as [[-> _] | [? _]]; lia).
      pose proof (counts_CallCounter w u n Hn) as Hc.
      destruct (wrapper_bumps expiration func url u w n Hurl Hc ltac:(lia))
        as [Hdb _].
      right. split; [lia |]. rewrite Hdb. unfold bumped.
      rewrite (counts_expiry w u n Hn), Z.add_0_r. reflexivity.
    + rewrite !Z.add_0_r. apply (counts_later w); [exact Hn | |].
      * apply wrapper_other_keys. intros u' Hu'. split.
        -- intros E. apply count_key_inj in E. subst u'.
           apply Hne. exact (utf8_encode_inj _ _ _ Hu' Hurl).
        -- apply count_cache_ne.
      * apply wrapper_clock_mono.
Qed.

Lemma visits_nonneg (url : str) (acts : list action) : 0 <= visits url acts.
Proof.
  induction acts as [| [ms | url'] acts IH]; cbn [visits]; [lia | lia |].
  destruct (decide (url' = url)); lia.
Qed.

Lemma counts_run (expiration : Z) (func : fetcher) (url : str) (u : string)
    (acts : list action) (w : world) (n : Z) :
  utf8_encode url = Some u ->
  counts w u n -> n + visits url acts <= LLONG_MAX ->
  counts (run (wrapper expiration func) acts w) u (n + visits url acts).
Proof.
  intros Hurl. revert w n.
  induction acts as [| a acts IH]; intros w n Hn Hroom.
  - cbn [run visits]. rewrite Z.add_0_r. exact Hn.
  - pose proof (visits_nonneg url acts) as Hge.
    assert (Hsplit : visits url (a :: acts) = visits url [a] + visits url acts).
    { destruct a; cbn [visits]; lia. }
    rewrite Hsplit in *.
    assert (Hrun : run (wrapper expiration func) (a :: acts) w
                   = run (wrapper expiration func) acts
                       (run (wrapper expiration func) [a] w)).
    { destruct a; reflexivity. }
    rewrite Hrun, Z.add_assoc. apply IH; [| lia].
    apply counts_step; [exact Hurl | exact Hn | lia].
Qed.

(** C1: a single call [g(url)] adds exactly 1 to the counter kept at
    [count:<url>]; the INCR is the first command of the call, ahead of the
    GET of the cache key, on a hit as on a miss; and after a caller made [n]
    calls with [url], a counter that was absent at the start reads [n]. *)
Theorem counter_incremented_each_call :
  (forall expiration func url u w c,
      utf8_encode url = Some u ->
      CallCounter w u = Some c -> c < LLONG_MAX ->
      let w' := snd (wrapper expiration func url w) in
      (exists e, db w' !! count_key u = Some e
                 /\ string2ll (value e) = Some (c + 1)
                 /\ expire_at e = expiry w (count_key u))
      /\ (expiry w (count_key u) = None -> CallCounter w' u = Some (c + 1))
      /\ exists rest,
           trace w' = trace w ++ INCR (count_key u) :: GET (cache_key u) :: rest
           /\ Forall (fun ev => ev <> INCR (count_key u)) rest)
  /\ (forall expiration func url u acts w,
      utf8_encode url = Some u ->
      live w (count_key u) = None ->
      visits url acts <= LLONG_MAX ->
      CallCounter (run (wrapper expiration func) acts w) u
      = Some (visits url acts)).
Proof.
  split.
  - intros expiration func url u w c Hurl Hc Hr w'. subst w'.
    destruct (wrapper_bumps expiration func url u w c Hurl Hc Hr)
      as [Hdb [rest [Htr Hrest]]].
    split; [| split].
    + exists (bumped w u c). split; [exact Hdb |]. split.
      * apply string2ll_bumped; assumption.
      * reflexivity.
    + intros Hnone. unfold CallCounter, live. rewrite Hdb.
      unfold expired, bumped. cbn [expire_at value]. rewrite Hnone.
      apply string2ll_ll2string.
      pose proof (CallCounter_le w u c Hc). lia.
    + exists rest. split; [exact Htr |].
      destruct Hrest as [(_ & -> & _) | [(_ & -> & _) | (_ & v & -> & _)]];
        repeat constructor; discriminate.
  - intros expiration func url u acts w Hurl Hfresh Hroom.
    apply counts_CallCounter.
    apply (counts_run expiration func url u acts w 0 Hurl);
      [left; split; [reflexivity | exact Hfresh] | lia].
Qed.

(** C7: one call writes the store at [count:<url>] (one INCR) and at
    [cache:<url>] (one SETEX at most, and only on a miss), leaves every other
    key as it was, and calls the wrapped function not at all on a hit and
    once on a miss. *)
Theorem one_call_footprint :
  forall expiration func url w,
    let w' := snd (wrapper expiration func url w) in
    (forall k,
        (forall u, utf8_encode url = Some u ->
                   k <> count_key u /\ k <> cache_key u) ->
        db w' !! k = db w !! k)
    /\ (forall u c,
          utf8_encode url = Some u ->
          CallCounter w u = Some c -> c < LLONG_MAX ->
          db w' !! count_key u
          = Some (Entry (ll2string (c + 1)) (expiry w (count_key u)))
          /\ (truthy (CacheEntry w u) = true
              /\ trace w' = trace w ++ [INCR (count_key u); GET (cache_key u)]
              /\ db w' !! cache_key u = db w !! cache_key u
              \/ truthy (CacheEntry w u) = false
                 /\ trace w' = trace w ++ [INCR (count_key u); GET (cache_key u);
                                           CALL url]
                 /\ db w' !! cache_key u = db w !! cache_key u
              \/ truthy (CacheEntry w u) = false
                 /\ exists v,
                      trace w' = trace w ++ [INCR (count_key u); GET (cache_key u);
                                             CALL url;
                                             SETEX (cache_key u) expiration v]
                      /\ (db w' !! cache_key u = db w !! cache_key u
                          \/ db w' !! cache_key u
                             = Some (Entry v (Some (clock w' + expiration * 1000)))))).
Proof.
  intros expiration func url w w'. subst w'. split.
  - intros k Hk. apply wrapper_other_keys. exact Hk.
  - intros u c Hurl Hc Hr.
    destruct (wrapper_bumps expiration func url u w c Hurl Hc Hr)
      as [Hdb [rest [Htr Hrest]]].
    split; [exact Hdb |].
    destruct Hrest as [(Ht & -> & Hk) | [(Ht & -> & Hk) | (Ht & v & -> & Hk)]].
    + left. repeat split; assumption.
    + right. left. repeat split; assumption.
    + right. right. split; [exact Ht |]. exists v. split; assumption.
Qed.

(** The commands of one call that write the counter key of [u]. *)
Lemma wrapper_count_writes (expiration : Z) (func : fetcher) (url : str)
    (w : world) (u : string) :
  exists evs,
    trace (snd (wrapper expiration func url w)) = trace w ++ evs
    /\ (List.filter (writes_to (count_key u)) evs = []
        \/ List.filter (writes_to (count_key u)) evs = [INCR (count_key u)]).
Proof.
  pose proof (wrapper_path expiration func url w) as H.
  path_cases H; cbn [snd trace log];
    [ exists []; split; [symmetry; apply app_nil_r | left; reflexivity] | .. ];
    eexists; (split; [reflexivity |]);
    cbn [List.filter writes_to];
    rewrite ?(bool_decide_eq_false_2 (cache_key _ = count_key _))
      by apply count_ne_cache;
    try (left; reflexivity);
    destruct (bool_decide (count_key u0 = count_key u)) eqn:E;
    try (left; reflexivity);
    apply bool_decide_eq_true_1 in E; rewrite E; right; reflexivity.
Qed.

Lemma counts_nonneg (w : world) (u : string) (n : Z) : counts w u n -> 0 <= n.
Proof. intros [[-> _] | [? _]]; lia. Qed.

(** However a caller goes on, the counter keeps its value or grows. *)
Lemma counts_grow (expiration : Z) (func : fetcher) (u : string)
    (acts : list action) (w : world) (n : Z) :
  counts w u n ->
  exists n', n <= n' /\ counts (run (wrapper expiration func) acts w) u n'.
Proof.
  revert w n. induction acts as [| a acts IH]; intros w n Hn.
  - exists n. split; [lia | exact Hn].
  - assert (Hstep : exists m, n <= m
              /\ counts (run (wrapper expiration func) [a] w) u m).
    { destruct a as [ms | url]; cbn [run].
      - exists n. split; [lia |].
        apply (counts_later w); [exact Hn | reflexivity |].
        unfold sleep. cbn [clock]. lia.
      - destruct (wrapper_counter_key expiration func url w u)
          as [Hsame | (Hurl & c & Hc & Hr & Hdb)].
        + exists n. split; [lia |].
          apply (counts_later w); [exact Hn | exact Hsame |].
          apply wrapper_clock_mono.
        + rewrite (counts_CallCounter w u n Hn) in Hc. injection Hc as <-.
          pose proof (counts_nonneg w u n Hn).
          exists (n + 1). split; [lia |]. right. split; [lia |].
          rewrite Hdb. unfold bumped.
          rewrite (counts_expiry w u n Hn). reflexivity. }
    destruct Hstep as [m [Hnm Hm]].
    destruct (IH _ m Hm) as [n' [Hmn' Hn']].
    exists n'. split; [lia |].
    replace (run (wrapper expiration func) (a :: acts) w)
      with (run (wrapper expiration func) acts
              (run (wrapper expiration func) [a] w))
      by (destruct a; reflexivity).
    exact Hn'.
Qed.

(** C8: the wrapper puts no expiry on [count:<url>] and writes the key by
    nothing but its one INCR per call; a counter the wrapper created stays
    in the store without expiry, and its value never goes down. *)
Theorem counter_persists_and_grows :
  (forall expiration func url w u,
      let w' := snd (wrapper expiration func url w) in
      (db w' !! count_key u = db w !! count_key u
       \/ exists c, utf8_encode url = Some u /\ CallCounter w u = Some c
            /\ db w' !! count_key u
               = Some (Entry (ll2string (c + 1)) (expiry w (count_key u))))
      /\ exists evs,
           trace w' = trace w ++ evs
           /\ (List.filter (writes_to (count_key u)) evs = []
               \/ List.filter (writes_to (count_key u)) evs
                  = [INCR (count_key u)]))
  /\ (forall expiration func u acts w n,
        counts w u n ->
        exists n', n <= n'
          /\ counts (run (wrapper expiration func) acts w) u n').
Proof.
  split.
  - intros expiration func url w u w'. subst w'. split.
    + destruct (wrapper_counter_key expiration func url w u)
        as [Hsame | (Hurl & c & Hc & Hr & Hdb)].
      * left. exact Hsame.
      * right. exists c. repeat split; assumption.
    + apply wrapper_count_writes.
  - intros expiration func u acts w n Hn.
    apply counts_grow. exact Hn.
Qed.

(** ** The cache entry *)

Lemma invalid_expire_false (seconds t : Z) :
  0 < seconds <= LLONG_MAX / 1000 -> t + seconds * 1000 <= LLONG_MAX ->
  invalid_expire seconds t = false.
Proof.
  intros [Hpos Hfit] Hsum. unfold invalid_expire.
  replace (seconds <=? 0) with false by (symmetry; apply Z.leb_gt; exact Hpos).
  replace (LLONG_MAX / 1000 <? seconds) with false
    by (symmetry; apply Z.ltb_ge; exact Hfit).
  replace (LLONG_MAX <? t + seconds * 1000) with false
    by (symmetry; apply Z.ltb_ge; exact Hsum).
  reflexivity.
Qed.

(** A falsy cache entry stays falsy while nobody writes the key. *)
Lemma truthy_later (w w' : world) (u : string) :
  truthy (CacheEntry w u) = false ->
  db w' !! cache_key u = db w !! cache_key u -> clock w <= clock w' ->
  truthy (CacheEntry w' u) = false.
Proof.
  unfold CacheEntry, live, expired. intros H -> Hle.
  destruct (db w !! cache_key u) as [[v [t |]] |]; cbn [expire_at] in *;
    [| exact H | reflexivity].
  destruct (Z.ltb_spec t (clock w')); [reflexivity |].
  replace (t <? clock w) with false in H by (symmetry; apply Z.ltb_ge; lia).
  exact H.
Qed.

(** After a call counted, the counter reads one more, or zero again when
    an expiry it already had went by. *)
Lemma counter_after_bump (w w' : world) (u : string) (c : Z) :
  CallCounter w u = Some c -> c < LLONG_MAX ->
  db w' !! count_key u = Some (bumped w u c) ->
  CallCounter w' u = Some (c + 1) \/ CallCounter w' u = Some 0.
Proof.
  intros Hc Hr Hdb. unfold CallCounter, live. rewrite Hdb.
  destruct (expired (bumped w u c) (clock w')); [right; reflexivity |].
  left. apply string2ll_bumped; assumption.
Qed.

(** On a falsy cache entry the wrapped function is called, once, right
    after the GET. *)
Lemma wrapper_calls_on_miss (expiration : Z) (func : fetcher) (url : str)
    (u : string) (w : world) (c : Z) :
  utf8_encode url = Some u -> CallCounter w u = Some c -> c < LLONG_MAX ->
  truthy (CacheEntry w u) = false ->
  exists rest,
    trace (snd (wrapper expiration func url w))
    = trace w ++ [INCR (count_key u); GET (cache_key u); CALL url] ++ rest
    /\ Forall (fun ev => ev <> CALL url) rest.
Proof.
  intros Hurl Hc Hr Hmiss.
  destruct (wrapper_bumps expiration func url u w c Hurl Hc Hr)
    as [_ [rest [Htr Hrest]]].
  destruct Hrest as [(Ht & _) | [(_ & -> & _) | (_ & v & -> & _)]].
  - congruence.
  - exists []. split; [exact Htr | constructor].
  - exists [SETEX (cache_key u) expiration v]. split; [exact Htr |].
    repeat constructor. discriminate.
Qed.

(** C3: on a call that finds no entry at [cache:<url>], the wrapped function
    is called exactly once, its result is stored at [cache:<url>] to expire
    [expiration] seconds after the moment of the SETEX, and the call returns
    that very result; the decorator's default for [expiration] is 10. *)
Theorem miss_fetches_stores_returns :
  forall expiration func url u w c took result v,
    utf8_encode url = Some u ->
    CallCounter w u = Some c -> c < LLONG_MAX ->
    CacheEntry w u = None ->
    func (clock w) url = (took, inr result) ->
    utf8_encode result = Some v ->
    0 < expiration <= LLONG_MAX / 1000 ->
    clock w + Z.of_N took + expiration * 1000 <= LLONG_MAX ->
    let r := wrapper expiration func url w in
    fst r = inr result
    /\ trace (snd r)
       = trace w ++ [INCR (count_key u); GET (cache_key u); CALL url;
                     SETEX (cache_key u) expiration v]
    /\ clock (snd r) = clock w + Z.of_N took
    /\ db (snd r) !! cache_key u
       = Some (Entry v (Some (clock (snd r) + expiration * 1000)))
    /\ CacheEntry (snd r) u = Some v
    /\ default_expiration = 10.
Proof.
  intros expiration func url u w c took result v
    Hurl Hc Hr Hnone Hf Hv Hexp Hfit r. subst r.
  assert (Hmiss : truthy (CacheEntry w u) = false) by (rewrite Hnone; reflexivity).
  rewrite (wrapper_miss_stores expiration func url u w c Hurl Hc Hr
             took result v Hmiss Hf Hv (invalid_expire_false _ _ Hexp Hfit)).
  cbn [fst snd trace clock db].
  repeat split.
  - apply lookup_insert_eq.
  - unfold CacheEntry, live. cbn [db clock]. rewrite lookup_insert_eq.
    unfold expired. cbn [expire_at].
    replace (clock w + Z.of_N took + expiration * 1000 <? clock w + Z.of_N took)
      with false by (symmetry; apply Z.ltb_ge; lia).
    reflexivity.
Qed.

(** C4: when the wrapped function raises on a miss, the caller gets that
    very exception, nothing is written at [cache:<url>], the counter keeps
    the increment of the call, and the next call with the url calls the
    wrapped function again. *)
Theorem fetch_failure_propagates :
  forall expiration func url u w c took e,
    utf8_encode url = Some u ->
    CallCounter w u = Some c -> c + 1 < LLONG_MAX ->
    truthy (CacheEntry w u) = false ->
    func (clock w) url = (took, inl e) ->
    let r := wrapper expiration func url w in
    fst r = inl e
    /\ trace (snd r)
       = trace w ++ [INCR (count_key u); GET (cache_key u); CALL url]
    /\ db (snd r) !! cache_key u = db w !! cache_key u
    /\ (exists e', db (snd r) !! count_key u = Some e'
                   /\ string2ll (value e') = Some (c + 1))
    /\ forall ms,
         let w1 := sleep ms (snd r) in
         exists rest,
           trace (snd (wrapper expiration func url w1))
           = trace w1 ++ [INCR (count_key u); GET (cache_key u); CALL url] ++ rest.
Proof.
  intros expiration func url u w c took e Hurl Hc Hr Hmiss Hf r. subst r.
  assert (Hroom : c < LLONG_MAX) by lia.
  rewrite (wrapper_miss_raises expiration func url u w c Hurl Hc Hroom
             took e Hmiss Hf).
  cbn [fst snd trace db].
  assert (Hcount : <[count_key u := bumped w u c]> (db w) !! count_key u
                   = Some (bumped w u c)) by apply lookup_insert_eq.
  assert (Hcache : <[count_key u := bumped w u c]> (db w) !! cache_key u
                   = db w !! cache_key u)
    by apply lookup_insert_ne, count_cache_ne.
  split; [reflexivity |]. split; [reflexivity |]. split; [exact Hcache |].
  split.
  - exists (bumped w u c). split; [exact Hcount |].
    apply string2ll_bumped; assumption.
  - intros ms.
    set (w' := {| db := <[count_key u := bumped w u c]> (db w);
                  clock := clock w + Z.of_N took;
                  trace := trace w ++ [INCR (count_key u); GET (cache_key u);
                                       CALL url] |}).
    assert (Hmiss1 : truthy (CacheEntry (sleep ms w') u) = false).
    { apply (truthy_later w); [exact Hmiss | exact Hcache |].
      unfold sleep, w'. cbn [clock]. lia. }
    destruct (counter_after_bump w (sleep ms w') u c Hc Hroom Hcount)
      as [Hc1 | Hc1].
    + destruct (wrapper_calls_on_miss expiration func url u (sleep ms w') (c + 1)
                  Hurl Hc1 Hr Hmiss1) as [rest [Htr _]].
      exists rest. exact Htr.
    + destruct (wrapper_calls_on_miss expiration func url u (sleep ms w') 0
                  Hurl Hc1 ltac:(unfold LLONG_MAX; lia) Hmiss1) as [rest [Htr _]].
      exists rest. exact Htr.
Qed.

(** The world a storing miss leaves, some time later. *)
Lemma after_stored_miss (expiration : Z) (func : fetcher) (url : str)
    (u : string) (w : world) (c : Z) (took : N) (result : str) (v : string)
    (ms : N) :
  utf8_encode url = Some u ->
  CallCounter w u = Some c -> c < LLONG_MAX ->
  truthy (CacheEntry w u) = false ->
  func (clock w) url = (took, inr result) ->
  utf8_encode result = Some v ->
  invalid_expire expiration (clock w + Z.of_N took) = false ->
  let w1 := sleep ms (snd (wrapper expiration func url w)) in
  fst (wrapper expiration func url w) = inr result
  /\ clock w1 = clock w + Z.of_N took + Z.of_N ms
  /\ db w1 !! cache_key u
     = Some (Entry v (Some (clock w + Z.of_N took + expiration * 1000)))
  /\ (CallCounter w1 u = Some (c + 1) \/ CallCounter w1 u = Some 0).
Proof.
  intros Hurl Hc Hr Hmiss Hf Hv Hexp w1. subst w1.
  rewrite (wrapper_miss_stores expiration func url u w c Hurl Hc Hr
             took result v Hmiss Hf Hv Hexp).
  cbn [fst snd]. split; [reflexivity |]. split; [reflexivity |].
  split.
  - unfold sleep. cbn [db]. apply lookup_insert_eq.
  - apply (counter_after_bump w _ u c Hc Hr).
    unfold sleep. cbn [db].
    rewrite lookup_insert_ne by apply count_ne_cache.
    apply lookup_insert_eq.
Qed.

(** C9: while the value stored at [cache:<url>] is the empty [bytes], a
    call with the url goes the way of a miss although the entry has not
    expired: the wrapped function is called again and, when it returns, the
    entry is written anew. *)
Theorem empty_cached_value_taken_as_absent :
  forall expiration func url u w c,
    utf8_encode url = Some u ->
    CallCounter w u = Some c -> c < LLONG_MAX ->
    CacheEntry w u = Some EmptyString ->
    let r := wrapper expiration func url w in
    (exists rest,
        trace (snd r)
        = trace w ++ [INCR (count_key u); GET (cache_key u); CALL url] ++ rest
        /\ Forall (fun ev => ev <> CALL url) rest)
    /\ forall took result v,
         func (clock w) url = (took, inr result) ->
         utf8_encode result = Some v ->
         0 < expiration <= LLONG_MAX / 1000 ->
         clock w + Z.of_N took + expiration * 1000 <= LLONG_MAX ->
         fst r = inr result
         /\ trace (snd r)
            = trace w ++ [INCR (count_key u); GET (cache_key u); CALL url;
                          SETEX (cache_key u) expiration v]
         /\ db (snd r) !! cache_key u
            = Some (Entry v (Some (clock w + Z.of_N took + expiration * 1000))).
Proof.
  intros expiration func url u w c Hurl Hc Hr Hempty r. subst r.
  assert (Hmiss : truthy (CacheEntry w u) = false) by (rewrite Hempty; reflexivity).
  split.
  - apply (wrapper_calls_on_miss expiration func url u w c); assumption.
  - intros took result v Hf Hv Hexp Hfit.
    rewrite (wrapper_miss_stores expiration func url u w c Hurl Hc Hr
               took result v Hmiss Hf Hv (invalid_expire_false _ _ Hexp Hfit)).
    cbn [fst snd trace db].
    split; [reflexivity |]. split; [reflexivity |]. apply lookup_insert_eq.
Qed.

(** C10: a hit returns the stored bytes decoded as UTF-8, and decoding the
    bytes that [utf8_encode] made of a [str] gives that [str] back: the hit
    that reads the entry a miss wrote returns the string the wrapped
    function had returned on that miss. *)
Theorem hit_returns_what_miss_stored :
  (forall expiration func url u w c a s,
      utf8_encode url = Some u ->
      CallCounter w u = Some c -> c < LLONG_MAX ->
      CacheEntry w u = Some (String a s) ->
      fst (wrapper expiration func url w)
      = match utf8_decode (String a s) with
        | Some r => inr r
        | None => inl UnicodeDecodeError
        end)
  /\ (forall (s : str) (b : string),
        utf8_encode s = Some b -> utf8_decode b = Some s)
  /\ (forall expiration func func' url u w c took result v ms,
        utf8_encode url = Some u ->
        CallCounter w u = Some c -> c + 1 < LLONG_MAX ->
        truthy (CacheEntry w u) = false ->
        func (clock w) url = (took, inr result) ->
        utf8_encode result = Some v ->
        result <> [] ->
        0 < expiration <= LLONG_MAX / 1000 ->
        clock w + Z.of_N took + expiration * 1000 <= LLONG_MAX ->
        Z.of_N ms <= expiration * 1000 ->
        let w1 := sleep ms (snd (wrapper expiration func url w)) in
        CacheEntry w1 u = Some v
        /\ fst (wrapper expiration func' url w1) = inr result
        /\ trace (snd (wrapper expiration func' url w1))
           = trace w1 ++ [INCR (count_key u); GET (cache_key u)]).
Proof.
  split; [| split].
  - intros expiration func url u w c a s Hurl Hc Hr Hhit.
    rewrite (wrapper_hit expiration func url u w c Hurl Hc Hr a s Hhit).
    reflexivity.
  - exact utf8_decode_encode.
  - intros expiration func func' url u w c took result v ms
      Hurl Hc Hr Hmiss Hf Hv Hne Hexp Hfit Hms w1.
    assert (Hexp1 : invalid_expire expiration (clock w + Z.of_N took) = false)
      by (apply invalid_expire_false; assumption).
    destruct (after_stored_miss expiration func url u w c took result v ms
                Hurl Hc ltac:(lia) Hmiss Hf Hv Hexp1)
      as (_ & Hclock & Hdb & Hcount).
    fold w1 in Hclock, Hdb, Hcount.
    assert (Hlive : CacheEntry w1 u = Some v).
    { unfold CacheEntry, live. rewrite Hdb. unfold expired. cbn [expire_at].
      replace (clock w + Z.of_N took + expiration * 1000 <? clock w1)
        with false by (symmetry; apply Z.ltb_ge; lia).
      reflexivity. }
    split; [exact Hlive |].
    destruct v as [| a s].
    { apply utf8_encode_empty in Hv. contradiction. }
    destruct Hcount as [Hc1 | Hc1].
    + rewrite (wrapper_hit expiration func' url u w1 (c + 1) Hurl Hc1 Hr a s Hlive).
      cbn [fst snd trace].
      rewrite (utf8_decode_encode result _ Hv). split; reflexivity.
    + rewrite (wrapper_hit expiration func' url u w1 0 Hurl Hc1
                 ltac:(unfold LLONG_MAX; lia) a s Hlive).
      cbn [fst snd trace].
      rewrite (utf8_decode_encode result _ Hv). split; reflexivity.
Qed.

(** ** The scenario of the spec

    [expiration = 1]: a first call fetches ["A"]; a second call right after
    is served from the cache; after two seconds of sleep a third call
    fetches again and gets ["B"]; the counter reads 1, 2, 3. *)
Example scenario :
  let g := wrapper 1 fetch_A_then_B in
  let w1 := snd (g url_x world0) in
  let w2 := snd (g url_x w1) in
  let w3 := snd (g url_x (sleep 2000 w2)) in
  fst (g url_x world0) = inr (str_of_ascii "A")
  /\ CallCounter w1 "http://x" = Some 1
  /\ CacheEntry w1 "http://x" = Some "A"%string
  /\ fst (g url_x w1) = inr (str_of_ascii "A")
  /\ CallCounter w2 "http://x" = Some 2
  /\ fst (g url_x (sleep 2000 w2)) = inr (str_of_ascii "B")
  /\ CallCounter w3 "http://x" = Some 3
  /\ trace w3
     = [INCR "count:http://x"; GET "cache:http://x"; CALL url_x;
        SETEX "cache:http://x" 1 "A";
        INCR "count:http://x"; GET "cache:http://x";
        INCR "count:http://x"; GET "cache:http://x"; CALL url_x;
        SETEX "cache:http://x" 1 "B"].
Proof. vm_compute. repeat split. Qed.

(** C2, at the failing input: the entry of the url holds the empty [bytes]
    and has not expired, yet the call does not return the stored value: it
    calls the wrapped function and returns what that one returned. *)
Theorem empty_entry_fetched_again :
  CacheEntry world_empty_entry "http://x" = Some EmptyString
  /\ expiry world_empty_entry (cache_key "http://x") = Some 10005
  /\ clock world_empty_entry = 5
  /\ fst (wrapper 10 fetch_A_then_B url_x world_empty_entry)
     = inr (str_of_ascii "A")
  /\ trace (snd (wrapper 10 fetch_A_then_B url_x world_empty_entry))
     = trace world_empty_entry
       ++ [INCR "count:http://x"; GET "cache:http://x"; CALL url_x;
           SETEX "cache:http://x" 10 "A"].
Proof. vm_compute. repeat split. Qed.

(** C6 as stated fails: a 404 response is no failure of [get_page]; its
    text is returned and cached. *)
Lemma non_2xx_response_not_a_failure :
  ~ (forall (requests_get : http) url u w c took resp,
        utf8_encode url = Some u ->
        CallCounter w u = Some c -> c < LLONG_MAX ->
        truthy (CacheEntry w u) = false ->
        requests_get (clock w) url = (took, inr resp) ->
        ~ (200 <= status_code resp < 300) ->
        (exists e, fst (get_page requests_get url w) = inl e)
        /\ db (snd (get_page requests_get url w)) !! cache_key u
           = db w !! cache_key u).
Proof.
  intros H.
  destruct (H requests_get_404 url_x "http://x"%string world0 0 5%N
              (Response 404 (str_of_ascii "Not Found"))
              eq_refl eq_refl eq_refl eq_refl eq_refl
              ltac:(cbn; lia)) as [[e He] _].
  vm_compute in He. discriminate He.
Qed.

(** C6, amended: [get_page] does not look at the status of the response.
    Whatever the status code, the text of the response is the result of the
    wrapped function: it is returned and written at [cache:<url>] for ten
    seconds.  Only an exception raised by the request itself goes to the
    caller, and then nothing is written at [cache:<url>]. *)
Theorem get_page_caches_any_response :
  forall (requests_get : http) url u w c took,
    utf8_encode url = Some u ->
    CallCounter w u = Some c -> c < LLONG_MAX ->
    truthy (CacheEntry w u) = false ->
    let r := get_page requests_get url w in
    (forall resp v,
        requests_get (clock w) url = (took, inr resp) ->
        utf8_encode (text resp) = Some v ->
        clock w + Z.of_N took + 10 * 1000 <= LLONG_MAX ->
        fst r = inr (text resp)
        /\ db (snd r) !! cache_key u
           = Some (Entry v (Some (clock w + Z.of_N took + 10 * 1000))))
    /\ (forall e,
          requests_get (clock w) url = (took, inl e) ->
          fst r = inl e
          /\ db (snd r) !! cache_key u = db w !! cache_key u).
Proof.
  intros requests_get url u w c took Hurl Hc Hr Hmiss r. subst r.
  unfold get_page, cache_and_count, default_expiration. split.
  - intros resp v Hget Hv Hfit.
    assert (Hf : get_page_body requests_get (clock w) url = (took, inr (text resp)))
      by (unfold get_page_body; rewrite Hget; reflexivity).
    assert (Hexp : invalid_expire 10 (clock w + Z.of_N took) = false)
      by (apply invalid_expire_false; [unfold LLONG_MAX; cbn; lia | exact Hfit]).
    rewrite (wrapper_miss_stores 10 _ url u w c Hurl Hc Hr
               took (text resp) v Hmiss Hf Hv Hexp).
    cbn [fst snd db]. split; [reflexivity |]. apply lookup_insert_eq.
  - intros e Hget.
    assert (Hf : get_page_body requests_get (clock w) url = (took, inl e))
      by (unfold get_page_body; rewrite Hget; reflexivity).
    rewrite (wrapper_miss_raises 10 _ url u w c Hurl Hc Hr took e Hmiss Hf).
    cbn [fst snd db]. split; [reflexivity |].
    apply lookup_insert_ne, count_cache_ne.
Qed.

(** ** The theorems at the sample worlds *)

Lemma counter_incremented_each_call_witness :
  utf8_encode url_x = Some "http://x"%string
  /\ CallCounter world0 "http://x" = Some 0
  /\ 0 < LLONG_MAX
  /\ live world0 (count_key "http://x") = None
  /\ visits url_x three_visits <= LLONG_MAX
  /\ (exists e,
        db (snd (wrapper 1 fetch_A_then_B url_x world0)) !! count_key "http://x"
        = Some e
        /\ string2ll (value e) = Some (0 + 1)
        /\ expire_at e = expiry world0 (count_key "http://x"))
  /\ CallCounter (run (wrapper 1 fetch_A_then_B) three_visits world0) "http://x"
     = Some (visits url_x three_visits).
Proof.
  assert (H1 : utf8_encode url_x = Some "http://x"%string) by reflexivity.
  assert (H2 : CallCounter world0 "http://x" = Some 0) by reflexivity.
  assert (H3 : 0 < LLONG_MAX) by reflexivity.
  assert (H4 : live world0 (count_key "http://x") = None) by reflexivity.
  assert (H5 : visits url_x three_visits <= LLONG_MAX) by (vm_compute; congruence).
  split; [exact H1 |]. split; [exact H2 |]. split; [exact H3 |].
  split; [exact H4 |]. split; [exact H5 |]. split.
  - exact (proj1 (proj1 counter_incremented_each_call
                    1 fetch_A_then_B url_x _ world0 0 H1 H2 H3)).
  - exact (proj2 counter_incremented_each_call
             1 fetch_A_then_B url_x _ three_visits world0 H1 H4 H5).
Defined.

Lemma miss_fetches_stores_returns_witness :
  utf8_encode url_x = Some "http://x"%string
  /\ CallCounter world0 "http://x" = Some 0
  /\ 0 < LLONG_MAX
  /\ CacheEntry world0 "http://x" = None
  /\ fetch_A_then_B (clock world0) url_x = (5%N, inr (str_of_ascii "A"))
  /\ utf8_encode (str_of_ascii "A") = Some "A"%string
  /\ 0 < 1 <= LLONG_MAX / 1000
  /\ clock world0 + Z.of_N 5 + 1 * 1000 <= LLONG_MAX
  /\ fst (wrapper 1 fetch_A_then_B url_x world0) = inr (str_of_ascii "A").
Proof.
  assert (H1 : utf8_encode url_x = Some "http://x"%string) by reflexivity.
  assert (H2 : CallCounter world0 "http://x" = Some 0) by reflexivity.
  assert (H3 : 0 < LLONG_MAX) by reflexivity.
  assert (H4 : CacheEntry world0 "http://x" = None) by reflexivity.
  assert (H5 : fetch_A_then_B (clock world0) url_x = (5%N, inr (str_of_ascii "A")))
    by reflexivity.
  assert (H6 : utf8_encode (str_of_ascii "A") = Some "A"%string) by reflexivity.
  assert (H7 : 0 < 1 <= LLONG_MAX / 1000) by (split; vm_compute; congruence).
  assert (H8 : clock world0 + Z.of_N 5 + 1 * 1000 <= LLONG_MAX)
    by (vm_compute; congruence).
  repeat (split; [assumption |]).
  exact (proj1 (miss_fetches_stores_returns 1 fetch_A_then_B url_x _ world0 0
                  5%N _ _ H1 H2 H3 H4 H5 H6 H7 H8)).
Defined.

Lemma fetch_failure_propagates_witness :
  utf8_encode url_x = Some "http://x"%string
  /\ CallCounter world0 "http://x" = Some 0
  /\ 0 + 1 < LLONG_MAX
  /\ truthy (CacheEntry world0 "http://x") = false
  /\ fetch_down (clock world0) url_x = (5%N, inl (Raised "ConnectionError"))
  /\ fst (wrapper 10 fetch_down url_x world0) = inl (Raised "ConnectionError").
Proof.
  assert (H1 : utf8_encode url_x = Some "http://x"%string) by reflexivity.
  assert (H2 : CallCounter world0 "http://x" = Some 0) by reflexivity.
  assert (H3 : 0 + 1 < LLONG_MAX) by reflexivity.
  assert (H4 : truthy (CacheEntry world0 "http://x") = false) by reflexivity.
  assert (H5 : fetch_down (clock world0) url_x
               = (5%N, inl (Raised "ConnectionError"))) by reflexivity.
  repeat (split; [assumption |]).
  exact (proj1 (fetch_failure_propagates 10 fetch_down url_x _ world0 0
                  5%N _ H1 H2 H3 H4 H5)).
Defined.

Lemma one_call_footprint_witness :
  utf8_encode url_x = Some "http://x"%string
  /\ CallCounter world0 "http://x" = Some 0
  /\ 0 < LLONG_MAX
  /\ (forall u, utf8_encode url_x = Some u ->
                "count:http://y"%string <> count_key u
                /\ "count:http://y"%string <> cache_key u)
  /\ db (snd (wrapper 1 fetch_A_then_B url_x world0)) !! "count:http://y"%string
     = db world0 !! "count:http://y"%string
  /\ db (snd (wrapper 1 fetch_A_then_B url_x world0)) !! count_key "http://x"
     = Some (Entry (ll2string (0 + 1)) (expiry world0 (count_key "http://x"))).
Proof.
  assert (H1 : utf8_encode url_x = Some "http://x"%string) by reflexivity.
  assert (H2 : CallCounter world0 "http://x" = Some 0) by reflexivity.
  assert (H3 : 0 < LLONG_MAX) by reflexivity.
  assert (H4 : forall u, utf8_encode url_x = Some u ->
                         "count:http://y"%string <> count_key u
                         /\ "count:http://y"%string <> cache_key u).
  { intros u Hu. rewrite H1 in Hu. injection Hu as <-.
    split; vm_compute; discriminate. }
  repeat (split; [assumption |]). split.
  - exact (proj1 (one_call_footprint 1 fetch_A_then_B url_x world0) _ H4).
  - exact (proj1 (proj2 (one_call_footprint 1 fetch_A_then_B url_x world0)
                    _ 0 H1 H2 H3)).
Defined.

Lemma counter_persists_and_grows_witness :
  counts world0 "http://x" 0
  /\ exists n', 0 <= n'
       /\ counts (run (wrapper 1 fetch_A_then_B) three_visits world0) "http://x" n'.
Proof.
  assert (H1 : counts world0 "http://x" 0)
    by (left; split; reflexivity).
  split; [exact H1 |].
  exact (proj2 counter_persists_and_grows 1 fetch_A_then_B _ three_visits world0 0 H1).
Defined.

Lemma empty_cached_value_taken_as_absent_witness :
  utf8_encode url_x = Some "http://x"%string
  /\ CallCounter world_empty_entry "http://x" = Some 1
  /\ 1 < LLONG_MAX
  /\ CacheEntry world_empty_entry "http://x" = Some EmptyString
  /\ exists rest,
       trace (snd (wrapper 10 fetch_A_then_B url_x world_empty_entry))
       = trace world_empty_entry ++ [INCR (count_key "http://x"); GET (cache_key "http://x");
                      CALL url_x] ++ rest
       /\ Forall (fun ev => ev <> CALL url_x) rest.
Proof.
  assert (H1 : utf8_encode url_x = Some "http://x"%string) by reflexivity.
  assert (H2 : CallCounter world_empty_entry "http://x" = Some 1) by (vm_compute; reflexivity).
  assert (H3 : 1 < LLONG_MAX) by reflexivity.
  assert (H4 : CacheEntry world_empty_entry "http://x" = Some EmptyString)
    by (vm_compute; reflexivity).
  repeat (split; [assumption |]).
  exact (proj1 (empty_cached_value_taken_as_absent 10 fetch_A_then_B url_x _ world_empty_entry 1
                  H1 H2 H3 H4)).
Defined.

Lemma hit_returns_what_miss_stored_witness :
  utf8_encode url_x = Some "http://x"%string
  /\ CallCounter world0 "http://x" = Some 0
  /\ 0 + 1 < LLONG_MAX
  /\ truthy (CacheEntry world0 "http://x") = false
  /\ fetch_A_then_B (clock world0) url_x = (5%N, inr (str_of_ascii "A"))
  /\ utf8_encode (str_of_ascii "A") = Some "A"%string
  /\ str_of_ascii "A" <> []
  /\ 0 < 1 <= LLONG_MAX / 1000
  /\ clock world0 + Z.of_N 5 + 1 * 1000 <= LLONG_MAX
  /\ Z.of_N 500 <= 1 * 1000
  /\ fst (wrapper 1 fetch_down url_x
            (sleep 500 (snd (wrapper 1 fetch_A_then_B url_x world0))))
     = inr (str_of_ascii "A").
Proof.
  assert (H1 : utf8_encode url_x = Some "http://x"%string) by reflexivity.
  assert (H2 : CallCounter world0 "http://x" = Some 0) by reflexivity.
  assert (H3 : 0 + 1 < LLONG_MAX) by reflexivity.
  assert (H4 : truthy (CacheEntry world0 "http://x") = false) by reflexivity.
  assert (H5 : fetch_A_then_B (clock world0) url_x = (5%N, inr (str_of_ascii "A")))
    by reflexivity.
  assert (H6 : utf8_encode (str_of_ascii "A") = Some "A"%string) by reflexivity.
  assert (H7 : str_of_ascii "A" <> []) by (vm_compute; discriminate).
  assert (H8 : 0 < 1 <= LLONG_MAX / 1000) by (split; vm_compute; congruence).
  assert (H9 : clock world0 + Z.of_N 5 + 1 * 1000 <= LLONG_MAX)
    by (vm_compute; congruence).
  assert (H10 : Z.of_N 500 <= 1 * 1000) by (vm_compute; congruence).
  repeat (split; [assumption |]).
  exact (proj1 (proj2 (proj2 (proj2 hit_returns_what_miss_stored)
    1 fetch_A_then_B fetch_down url_x _ world0 0 5%N _ _ 500%N
    H1 H2 H3 H4 H5 H6 H7 H8 H9 H10))).
Defined.

Lemma get_page_caches_any_response_witness :
  utf8_encode url_x = Some "http://x"%string
  /\ CallCounter world0 "http://x" = Some 0
  /\ 0 < LLONG_MAX
  /\ truthy (CacheEntry world0 "http://x") = false
  /\ requests_get_404 (clock world0) url_x
     = (5%N, inr (Response 404 (str_of_ascii "Not Found")))
  /\ utf8_encode (str_of_ascii "Not Found") = Some "Not Found"%string
  /\ clock world0 + Z.of_N 5 + 10 * 1000 <= LLONG_MAX
  /\ fst (get_page requests_get_404 url_x world0) = inr (str_of_ascii "Not Found").
Proof.
  assert (H1 : utf8_encode url_x = Some "http://x"%string) by reflexivity.
  assert (H2 : CallCounter world0 "http://x" = Some 0) by reflexivity.
  assert (H3 : 0 < LLONG_MAX) by reflexivity.
  assert (H4 : truthy (CacheEntry world0 "http://x") = false) by reflexivity.
  assert (H5 : requests_get_404 (clock world0) url_x
               = (5%N, inr (Response 404 (str_of_ascii "Not Found"))))
    by reflexivity.
  assert (H6 : utf8_encode (str_of_ascii "Not Found") = Some "Not Found"%string)
    by reflexivity.
  assert (H7 : clock world0 + Z.of_N 5 + 10 * 1000 <= LLONG_MAX)
    by (vm_compute; congruence).
  repeat (split; [assumption |]).
  exact (proj1 (proj1 (get_page_caches_any_response requests_get_404 url_x _
                         world0 0 5%N H1 H2 H3 H4)
                  (Response 404 (str_of_ascii "Not Found")) _ H5 H6 H7)).
Defined.

(** * Part IV: the script, and the edges of a call *)

Example main_sample :
  fst (main requests_get_ok 2 3 2 process0) = inr tt
  /\ stdout (snd (main requests_get_ok 2 3 2 process0))
     = [str_of_ascii "<html>"; str_of_ascii "Count: 1";
        str_of_ascii "<html>"; str_of_ascii "Count: 2"]
  /\ clock (outside (snd (main requests_get_ok 2 3 2 process0))) = 1207.
Proof. vm_compute. repeat split. Qed.

(** ** Calls that raise *)

(** X1: when the server refuses the INCR, because the value at
    [count:<url>] is not the text of an integer or is the largest 64-bit
    integer, the call raises [ResponseError] at once: no GET is sent, the
    wrapped function is not called and the store is as before, also when a
    page is cached for the url. *)
Theorem refused_counter_stops_the_call :
  forall expiration func url u w,
    utf8_encode url = Some u ->
    CallCounter w u = None \/ CallCounter w u = Some LLONG_MAX ->
    wrapper expiration func url w
    = (inl ResponseError, log (INCR (count_key u)) w).
Proof.
  intros expiration func url u w Hurl Hc.
  rewrite (wrapper_sent _ _ _ _ Hurl). unfold bind at 1.
  rewrite (server_incr_refused w u Hc). reflexivity.
Qed.

(** X2: a url that has no UTF-8 encoding (a lone surrogate in it) makes the
    call raise [UnicodeEncodeError] before any command is sent: the counter
    is not incremented and the wrapped function is not called.  It is the
    only case in which a call leaves the log as it was. *)
Theorem unencodable_url_sends_nothing :
  forall expiration func url w,
    (utf8_encode url = None ->
     wrapper expiration func url w = (inl UnicodeEncodeError, w))
    /\ (trace (snd (wrapper expiration func url w)) = trace w ->
        utf8_encode url = None).
Proof.
  intros expiration func url w. split.
  - apply wrapper_unencodable.
  - intros Htr.
    pose proof (wrapper_path expiration func url w) as H.
    path_cases H; [exact Hu | ..]; cbn [snd trace log] in Htr;
      apply (f_equal (@List.length event)) in Htr;
      rewrite length_app in Htr; cbn [List.length] in Htr; lia.
Qed.

(** X3: with an [expiration] of zero or less, a miss calls the wrapped
    function, sends the SETEX, and raises the [ResponseError] of the refused
    SETEX instead of returning the result; nothing is written at
    [cache:<url>]. *)
Theorem nonpositive_expiration_raises :
  forall expiration func url u w c took result v,
    utf8_encode url = Some u ->
    CallCounter w u = Some c -> c < LLONG_MAX ->
    truthy (CacheEntry w u) = false ->
    func (clock w) url = (took, inr result) ->
    utf8_encode result = Some v ->
    expiration <= 0 ->
    let r := wrapper expiration func url w in
    fst r = inl ResponseError
    /\ trace (snd r)
       = trace w ++ [INCR (count_key u); GET (cache_key u); CALL url;
                     SETEX (cache_key u) expiration v]
    /\ db (snd r) !! cache_key u = db w !! cache_key u.
Proof.
  intros expiration func url u w c took result v
    Hurl Hc Hr Hmiss Hf Hv Hexp r. subst r.
  rewrite (wrapper_miss expiration func url u w c Hurl Hc Hr
             took (inr result) Hmiss Hf).
  cbv zeta. rewrite Hv. unfold invalid_expire.
  replace (expiration <=? 0) with true by (symmetry; apply Z.leb_le; exact Hexp).
  cbn [orb fst snd trace db]. rewrite <- app_assoc.
  split; [reflexivity |]. split; [reflexivity |].
  apply lookup_insert_ne, count_cache_ne.
Qed.

(** X4: when the bytes stored at [cache:<url>] are not UTF-8, the call
    raises [UnicodeDecodeError]; the wrapped function is not called and the
    entry stays as it is. *)
Theorem undecodable_entry_raises :
  forall expiration func url u w c a s,
    utf8_encode url = Some u ->
    CallCounter w u = Some c -> c < LLONG_MAX ->
    CacheEntry w u = Some (String a s) ->
    utf8_decode (String a s) = None ->
    let r := wrapper expiration func url w in
    fst r = inl UnicodeDecodeError
    /\ trace (snd r) = trace w ++ [INCR (count_key u); GET (cache_key u)]
    /\ db (snd r) !! cache_key u = db w !! cache_key u.
Proof.
  intros expiration func url u w c a s Hurl Hc Hr Hhit Hbad r. subst r.
  rewrite (wrapper_hit expiration func url u w c Hurl Hc Hr a s Hhit), Hbad.
  cbn [fst snd trace db].
  split; [reflexivity |]. split; [reflexivity |].
  apply lookup_insert_ne, count_cache_ne.
Qed.

(** X5: when the wrapped function returns a [str] that has no UTF-8
    encoding, the call raises [UnicodeEncodeError] after the function was
    called: no SETEX is sent, nothing is written at [cache:<url>], and the
    result does not reach the caller. *)
Theorem unencodable_result_raises :
  forall expiration func url u w c took result,
    utf8_encode url = Some u ->
    CallCounter w u = Some c -> c < LLONG_MAX ->
    truthy (CacheEntry w u) = false ->
    func (clock w) url = (took, inr result) ->
    utf8_encode result = None ->
    let r := wrapper expiration func url w in
    fst r = inl UnicodeEncodeError
    /\ trace (snd r)
       = trace w ++ [INCR (count_key u); GET (cache_key u); CALL url]
    /\ db (snd r) !! cache_key u = db w !! cache_key u.
Proof.
  intros expiration func url u w c took result Hurl Hc Hr Hmiss Hf Hv r. subst r.
  rewrite (wrapper_miss expiration func url u w c Hurl Hc Hr
             took (inr result) Hmiss Hf).
  cbv zeta. rewrite Hv. cbn [fst snd trace db].
  split; [reflexivity |]. split; [reflexivity |].
  apply lookup_insert_ne, count_cache_ne.
Qed.

(** ** Calls with other urls *)

(** X6: two different urls never share a key: a call with another url
    leaves the counter and the entry of this url, value and expiry, as they
    are in the store. *)
Theorem other_url_leaves_keys :
  forall expiration func url url' u w,
    utf8_encode url = Some u ->
    url' <> url ->
    db (snd (wrapper expiration func url' w)) !! count_key u
    = db w !! count_key u
    /\ db (snd (wrapper expiration func url' w)) !! cache_key u
       = db w !! cache_key u.
Proof.
  intros expiration func url url' u w Hurl Hne.
  assert (Hu' : forall u', utf8_encode url' = Some u' -> u <> u').
  { intros u' Hu' ->. apply Hne. exact (utf8_encode_inj _ _ _ Hu' Hurl). }
  split; apply wrapper_other_keys; intros u' Hurl'; split.
  - intros E. apply count_key_inj in E. exact (Hu' u' Hurl' E).
  - apply count_cache_ne.
  - apply count_ne_cache.
  - intros E. unfold cache_key in E. apply String.app_inj in E.
    exact (Hu' u' Hurl' E).
Qed.

(** ** Rounds of a caller who keeps to one url *)

Lemma total_nonneg (waits : list N) : 0 <= total waits.
Proof. induction waits as [| ms waits IH]; cbn [total]; lia. Qed.

(** A hit, with a counter that has no expiry: what it returns and the
    world it leaves. *)
Lemma hit_round (expiration : Z) (func : fetcher) (url : str) (u : string)
    (w : world) (n : Z) (a : ascii) (s : string) (result : str) :
  utf8_encode url = Some u ->
  counts w u n -> n < LLONG_MAX ->
  CacheEntry w u = Some (String a s) ->
  utf8_decode (String a s) = Some result ->
  exists w1,
    wrapper expiration func url w = (inr result, w1)
    /\ counts w1 u (n + 1)
    /\ db w1 !! cache_key u = db w !! cache_key u
    /\ clock w1 = clock w
    /\ trace w1 = trace w ++ [INCR (count_key u); GET (cache_key u)].
Proof.
  intros Hurl Hn Hr Hhit Hdec.
  pose proof (counts_CallCounter w u n Hn) as Hc.
  pose proof (counts_nonneg w u n Hn) as Hge.
  eexists. split.
  { rewrite (wrapper_hit expiration func url u w n Hurl Hc Hr a s Hhit), Hdec.
    reflexivity. }
  cbn [db clock trace]. split; [| split; [| split; reflexivity]].
  - right. split; [lia |]. cbn [db]. rewrite lookup_insert_eq.
    unfold bumped. rewrite (counts_expiry w u n Hn). reflexivity.
  - apply lookup_insert_ne, count_cache_ne.
Qed.

(** A storing miss, with a counter that has no expiry. *)
Lemma miss_round (expiration : Z) (func : fetcher) (url : str) (u : string)
    (w : world) (n : Z) (took : N) (result : str) (v : string) :
  utf8_encode url = Some u ->
  counts w u n -> n < LLONG_MAX ->
  truthy (CacheEntry w u) = false ->
  func (clock w) url = (took, inr result) ->
  utf8_encode result = Some v ->
  0 < expiration <= LLONG_MAX / 1000 ->
  clock w + Z.of_N took + expiration * 1000 <= LLONG_MAX ->
  exists w1,
    wrapper expiration func url w = (inr result, w1)
    /\ counts w1 u (n + 1)
    /\ db w1 !! cache_key u
       = Some (Entry v (Some (clock w1 + expiration * 1000)))
    /\ clock w1 = clock w + Z.of_N took
    /\ trace w1
       = trace w ++ [INCR (count_key u); GET (cache_key u); CALL url;
                     SETEX (cache_key u) expiration v].
Proof.
  intros Hurl Hn Hr Hmiss Hf Hv Hexp Hfit.
  pose proof (counts_CallCounter w u n Hn) as Hc.
  pose proof (counts_nonneg w u n Hn) as Hge.
  eexists. split.
  { exact (wrapper_miss_stores expiration func url u w n Hurl Hc Hr
             took result v Hmiss Hf Hv (invalid_expire_false _ _ Hexp Hfit)). }
  cbn [db clock trace]. split; [| split; [| split; reflexivity]].
  - right. split; [lia |]. cbn [db].
    rewrite lookup_insert_ne by apply count_ne_cache.
    rewrite lookup_insert_eq.
    unfold bumped. rewrite (counts_expiry w u n Hn). reflexivity.
  - apply lookup_insert_eq.
Qed.

Lemma live_entry (w : world) (k v : string) (E : Z) :
  db w !! k = Some (Entry v (Some E)) -> clock w <= E ->
  option_map value (live w k) = Some v.
Proof.
  intros Hdb Hle. unfold live, expired. rewrite Hdb. cbn [expire_at].
  replace (E <? clock w) with false by (symmetry; apply Z.ltb_ge; exact Hle).
  reflexivity.
Qed.

(** All the calls of a caller who comes back within the life of the entry
    are hits. *)
Lemma revisit_hits (expiration : Z) (func : fetcher) (url : str) (u : string)
    (a : ascii) (s : string) (result : str) (E : Z) :
  utf8_encode url = Some u ->
  utf8_decode (String a s) = Some result ->
  forall (waits : list N) (w : world) (n : Z),
    counts w u n -> n + Z.of_nat (List.length waits) <= LLONG_MAX ->
    db w !! cache_key u = Some (Entry (String a s) (Some E)) ->
    clock w + total waits <= E ->
    outcomes (wrapper expiration func) (revisit url waits) w
    = List.map (fun _ => inr result) waits
    /\ trace (run (wrapper expiration func) (revisit url waits) w)
       = trace w
         ++ List.flat_map (fun _ => [INCR (count_key u); GET (cache_key u)]) waits.
Proof.
  intros Hurl Hdec waits.
  induction waits as [| ms waits IH]; intros w n Hn Hroom Hdb Hwin.
  - cbn. rewrite app_nil_r. split; reflexivity.
  - cbn [revisit outcomes run List.map List.flat_map total List.length] in *.
    pose proof (total_nonneg waits) as Hge.
    assert (Hn1 : counts (sleep ms w) u n).
    { apply (counts_later w); [exact Hn | reflexivity |].
      unfold sleep. cbn [clock]. lia. }
    assert (Hhit : CacheEntry (sleep ms w) u = Some (String a s)).
    { apply (live_entry _ _ _ E); [exact Hdb |]. unfold sleep. cbn [clock]. lia. }
    destruct (hit_round expiration func url u (sleep ms w) n a s result
                Hurl Hn1 ltac:(lia) Hhit Hdec)
      as (w1 & Hcall & Hn2 & Hdb1 & Hclock & Htr).
    rewrite Hcall. cbn [fst snd].
    destruct (IH w1 (n + 1) Hn2 ltac:(lia)) as [Hout Hrun].
    + rewrite Hdb1. exact Hdb.
    + rewrite Hclock. unfold sleep. cbn [clock]. lia.
    + split; [rewrite Hout; reflexivity |].
      rewrite Hrun, Htr. unfold sleep. cbn [trace].
      rewrite <- app_assoc. reflexivity.
Qed.

(** X7: after the call that fetched and cached a non-empty result, every
    further call with the url is served from the cache as long as the waits
    between the calls add up to no more than [expiration] seconds: each
    returns the cached result and sends only its INCR and GET; the wrapped
    function is not called again and the entry is not renewed by the hits. *)
Theorem one_fetch_serves_the_window :
  forall expiration func url u w c took result v waits,
    utf8_encode url = Some u ->
    counts w u c ->
    c + 1 + Z.of_nat (List.length waits) <= LLONG_MAX ->
    truthy (CacheEntry w u) = false ->
    func (clock w) url = (took, inr result) ->
    utf8_encode result = Some v ->
    result <> [] ->
    0 < expiration <= LLONG_MAX / 1000 ->
    clock w + Z.of_N took + expiration * 1000 <= LLONG_MAX ->
    total waits <= expiration * 1000 ->
    let g := wrapper expiration func in
    let w1 := snd (g url w) in
    fst (g url w) = inr result
    /\ outcomes g (revisit url waits) w1 = List.map (fun _ => inr result) waits
    /\ trace (run g (revisit url waits) w1)
       = trace w1
         ++ List.flat_map (fun _ => [INCR (count_key u); GET (cache_key u)]) waits.
Proof.
  intros expiration func url u w c took result v waits
    Hurl Hn Hroom Hmiss Hf Hv Hne Hexp Hfit Hwin g w1. subst g w1.
  destruct (miss_round expiration func url u w c took result v
              Hurl Hn ltac:(lia) Hmiss Hf Hv Hexp Hfit)
    as (w1 & Hcall & Hn1 & Hdb & Hclock & Htr).
  rewrite Hcall. cbn [fst snd]. split; [reflexivity |].
  destruct v as [| a s].
  { apply utf8_encode_empty in Hv. contradiction. }
  apply (revisit_hits expiration func url u a s result
           (clock w1 + expiration * 1000) Hurl
           (utf8_decode_encode result _ Hv) waits w1 (c + 1) Hn1);
    [lia | exact Hdb | lia].
Qed.

(** ** The script *)

Lemma is_ascii_string_of_uint (d : Decimal.uint) :
  is_ascii (NilEmpty.string_of_uint d).
Proof.
  unfold is_ascii.
  induction d; cbn [NilEmpty.string_of_uint str_of_ascii];
    constructor; solve [reflexivity | assumption].
Qed.

Lemma is_ascii_ll2string (z : Z) : is_ascii (ll2string z).
Proof.
  unfold ll2string.
  assert (Hu : forall d, is_ascii (NilZero.string_of_uint d)).
  { intros d. destruct d; try apply is_ascii_string_of_uint.
    unfold is_ascii. cbn. repeat constructor. }
  destruct (Z.to_int z) as [d | d]; cbn [NilZero.string_of_int].
  - apply Hu.
  - unfold is_ascii. cbn [str_of_ascii]. constructor; [reflexivity | apply Hu].
Qed.

Lemma utf8_decode_ascii (s : string) :
  is_ascii s -> utf8_decode s = Some (str_of_ascii s).
Proof.
  intros H. apply utf8_decode_encode, utf8_encode_ascii, H.
Qed.

Lemma main_url_encoded : utf8_encode main_url = Some main_url_text.
Proof. vm_compute. reflexivity. Qed.

(** Reading a counter that has no expiry gives its decimal text; the GET
    changes nothing in the store. *)
Lemma read_count_counts (url : str) (u : string) (w : world) (n : Z) :
  utf8_encode url = Some u -> counts w u n -> 0 < n ->
  read_count url w
  = (inr (str_of_ascii (ll2string n)), log (GET (count_key u)) w).
Proof.
  intros Hurl Hn Hpos.
  unfold read_count, redis_get, encode_arg.
  rewrite encode_prefixed by exact is_ascii_count. rewrite Hurl.
  cbn [option_map]. unfold bind, ret, server_get.
  destruct Hn as [[-> _] | [_ Hdb]]; [lia |].
  unfold live, expired. fold (count_key u). rewrite Hdb.
  cbn [expire_at option_map value]. unfold bytes_decode.
  rewrite (utf8_decode_ascii _ (is_ascii_ll2string n)). reflexivity.
Qed.

Lemma counts_log (ev : event) (w : world) (u : string) (n : Z) :
  counts w u n -> counts (log ev w) u n.
Proof. intros H. exact H. Qed.

(** X8: started on a store that has no page cached for its url, the script
    makes one HTTP request: when the request gets a page that is not empty
    and the second fetch comes within ten seconds of the first, the script
    prints the page, the counter, the page again and the counter again, the
    second counter one above the first, and the second page comes from the
    cache. *)
Theorem main_requests_once :
  forall requests_get lag1 lag2 lag3 p c took resp v,
    counts (outside p) main_url_text c ->
    c + 2 <= LLONG_MAX ->
    truthy (CacheEntry (outside p) main_url_text) = false ->
    requests_get (clock (outside p)) main_url = (took, inr resp) ->
    utf8_encode (text resp) = Some v ->
    text resp <> [] ->
    clock (outside p) + Z.of_N took + 10 * 1000 <= LLONG_MAX ->
    Z.of_N lag1 + Z.of_N lag2 <= 10 * 1000 ->
    let r := main requests_get lag1 lag2 lag3 p in
    fst r = inr tt
    /\ stdout (snd r)
       = stdout p
         ++ [text resp;
             str_of_ascii "Count: " ++ str_of_ascii (ll2string (c + 1));
             text resp;
             str_of_ascii "Count: " ++ str_of_ascii (ll2string (c + 2))]
    /\ trace (outside (snd r))
       = trace (outside p)
         ++ [INCR (count_key main_url_text); GET (cache_key main_url_text);
             CALL main_url; SETEX (cache_key main_url_text) 10 v;
             GET (count_key main_url_text);
             INCR (count_key main_url_text); GET (cache_key main_url_text);
             GET (count_key main_url_text)].
Proof.
  intros requests_get lag1 lag2 lag3 [out w] c took resp v
    Hn Hroom Hmiss Hget Hv Hne Hfit Hlag r.
  subst r. cbn [outside stdout] in *.
  pose proof (counts_nonneg w _ c Hn) as Hge.
  assert (Hf : get_page_body requests_get (clock w) main_url
               = (took, inr (text resp)))
    by (unfold get_page_body; rewrite Hget; reflexivity).
  destruct (miss_round 10 (get_page_body requests_get) main_url main_url_text
              w c took (text resp) v main_url_encoded Hn ltac:(lia) Hmiss Hf Hv
              ltac:(unfold LLONG_MAX; cbn; lia) Hfit)
    as (w1 & Hcall1 & Hn1 & Hdb1 & Hclock1 & Htr1).
  assert (Hn1' : counts (sleep lag1 w1) main_url_text (c + 1)).
  { apply (counts_later w1); [exact Hn1 | reflexivity |].
    unfold sleep. cbn [clock]. lia. }
  pose proof (read_count_counts main_url main_url_text (sleep lag1 w1) (c + 1)
                main_url_encoded Hn1' ltac:(lia)) as Hread1.
  set (w2 := sleep lag2 (log (GET (count_key main_url_text)) (sleep lag1 w1)))
    in *.
  assert (Hn2 : counts w2 main_url_text (c + 1)).
  { apply (counts_later (sleep lag1 w1)); [exact Hn1' | reflexivity |].
    unfold w2, sleep, log. cbn [clock]. lia. }
  destruct v as [| a s].
  { apply utf8_encode_empty in Hv. contradiction. }
  assert (Hhit : CacheEntry w2 main_url_text = Some (String a s)).
  { apply (live_entry w2 _ _ (clock w1 + 10 * 1000)); [exact Hdb1 |].
    unfold w2, sleep, log. cbn [clock]. lia. }
  destruct (hit_round 10 (get_page_body requests_get) main_url main_url_text
              w2 (c + 1) a s (text resp) main_url_encoded
              Hn2 ltac:(lia) Hhit (utf8_decode_encode _ _ Hv))
    as (w3 & Hcall2 & Hn3 & Hdb3 & Hclock3 & Htr3).
  assert (Hn3' : counts (sleep lag3 w3) main_url_text (c + 1 + 1)).
  { apply (counts_later w3); [exact Hn3 | reflexivity |].
    unfold sleep. cbn [clock]. lia. }
  pose proof (read_count_counts main_url main_url_text (sleep lag3 w3)
                (c + 1 + 1) main_url_encoded Hn3' ltac:(lia)) as Hread2.
  unfold main, io_bind, lift, print, pause, get_page, cache_and_count,
    default_expiration.
  cbn [outside stdout]. rewrite Hcall1. cbn [outside stdout].
  rewrite Hread1. cbn [outside stdout]. fold w2.
  rewrite Hcall2. cbn [outside stdout].
  rewrite Hread2. cbn [fst snd outside stdout trace log].
  split; [reflexivity |]. split.
  - rewrite <- !app_assoc. cbn [app].
    replace (c + 1 + 1) with (c + 2) by lia. reflexivity.
  - unfold sleep at 1. cbn [trace]. rewrite Htr3.
    unfold w2, sleep, log. cbn [trace]. rewrite Htr1.
    rewrite <- !app_assoc. reflexivity.
Qed.

(** X9: when the HTTP request of the first fetch raises, the script prints
    nothing and ends with that exception; the counter of the url has been
    incremented all the same, and no page is cached. *)
Theorem main_request_fails :
  forall requests_get lag1 lag2 lag3 p c took e,
    CallCounter (outside p) main_url_text = Some c -> c < LLONG_MAX ->
    truthy (CacheEntry (outside p) main_url_text) = false ->
    requests_get (clock (outside p)) main_url = (took, inl e) ->
    let r := main requests_get lag1 lag2 lag3 p in
    fst r = inl e
    /\ stdout (snd r) = stdout p
    /\ trace (outside (snd r))
       = trace (outside p)
         ++ [INCR (count_key main_url_text); GET (cache_key main_url_text);
             CALL main_url]
    /\ db (outside (snd r)) !! count_key main_url_text
       = Some (Entry (ll2string (c + 1))
                 (expiry (outside p) (count_key main_url_text)))
    /\ db (outside (snd r)) !! cache_key main_url_text
       = db (outside p) !! cache_key main_url_text.
Proof.
  intros requests_get lag1 lag2 lag3 [out w] c took e Hc Hr Hmiss Hget r.
  subst r.
  cbn [outside stdout] in *.
  assert (Hf : get_page_body requests_get (clock w) main_url = (took, inl e))
    by (unfold get_page_body; rewrite Hget; reflexivity).
  unfold main, io_bind, lift, get_page, cache_and_count, default_expiration.
  cbn [outside stdout].
  rewrite (wrapper_miss_raises 10 _ main_url main_url_text w c
             main_url_encoded Hc Hr took e Hmiss Hf).
  cbn [fst snd outside stdout trace db].
  split; [reflexivity |]. split; [reflexivity |]. split; [reflexivity |].
  split.
  - apply lookup_insert_eq.
  - apply lookup_insert_ne, count_cache_ne.
Qed.

(** ** A wrapped function that keeps raising *)



(** ** These theorems at the sample worlds *)

Lemma refused_counter_stops_the_call_witness :
  utf8_encode url_x = Some "http://x"%string
  /\ (CallCounter world_bad_counter_cached "http://x" = None
      \/ CallCounter world_bad_counter_cached "http://x" = Some LLONG_MAX)
  /\ CacheEntry world_bad_counter_cached "http://x" = Some "A"%string
  /\ fst (wrapper 10 fetch_A_then_B url_x world_bad_counter_cached)
     = inl ResponseError.
Proof.
  assert (H1 : utf8_encode url_x = Some "http://x"%string) by reflexivity.
  assert (H2 : CallCounter world_bad_counter_cached "http://x" = None
               \/ CallCounter world_bad_counter_cached "http://x"
                  = Some LLONG_MAX) by (left; reflexivity).
  split; [exact H1 |]. split; [exact H2 |]. split; [reflexivity |].
  exact (f_equal fst (refused_counter_stops_the_call 10 fetch_A_then_B url_x _
                        world_bad_counter_cached H1 H2)).
Defined.

Lemma unencodable_url_sends_nothing_witness :
  utf8_encode url_surrogate = None
  /\ wrapper 10 fetch_A_then_B url_surrogate world0
     = (inl UnicodeEncodeError, world0).
Proof.
  assert (H1 : utf8_encode url_surrogate = None) by reflexivity.
  split; [exact H1 |].
  exact (proj1 (unencodable_url_sends_nothing 10 fetch_A_then_B url_surrogate
                  world0) H1).
Defined.

Lemma nonpositive_expiration_raises_witness :
  utf8_encode url_x = Some "http://x"%string
  /\ CallCounter world0 "http://x" = Some 0
  /\ 0 < LLONG_MAX
  /\ truthy (CacheEntry world0 "http://x") = false
  /\ fetch_A_then_B (clock world0) url_x = (5%N, inr (str_of_ascii "A"))
  /\ utf8_encode (str_of_ascii "A") = Some "A"%string
  /\ 0 <= 0
  /\ fst (wrapper 0 fetch_A_then_B url_x world0) = inl ResponseError.
Proof.
  assert (H1 : utf8_encode url_x = Some "http://x"%string) by reflexivity.
  assert (H2 : CallCounter world0 "http://x" = Some 0) by reflexivity.
  assert (H3 : 0 < LLONG_MAX) by reflexivity.
  assert (H4 : truthy (CacheEntry world0 "http://x") = false) by reflexivity.
  assert (H5 : fetch_A_then_B (clock world0) url_x = (5%N, inr (str_of_ascii "A")))
    by reflexivity.
  assert (H6 : utf8_encode (str_of_ascii "A") = Some "A"%string) by reflexivity.
  assert (H7 : 0 <= 0) by lia.
  repeat (split; [assumption |]).
  exact (proj1 (nonpositive_expiration_raises 0 fetch_A_then_B url_x _ world0 0
                  5%N _ _ H1 H2 H3 H4 H5 H6 H7)).
Defined.

Lemma undecodable_entry_raises_witness :
  utf8_encode url_x = Some "http://x"%string
  /\ CallCounter world_bad_entry "http://x" = Some 0
  /\ 0 < LLONG_MAX
  /\ CacheEntry world_bad_entry "http://x" = Some (String (byte 0xFF%N) "")
  /\ utf8_decode (String (byte 0xFF%N) "") = None
  /\ fst (wrapper 10 fetch_A_then_B url_x world_bad_entry)
     = inl UnicodeDecodeError.
Proof.
  assert (H1 : utf8_encode url_x = Some "http://x"%string) by reflexivity.
  assert (H2 : CallCounter world_bad_entry "http://x" = Some 0) by reflexivity.
  assert (H3 : 0 < LLONG_MAX) by reflexivity.
  assert (H4 : CacheEntry world_bad_entry "http://x"
               = Some (String (byte 0xFF%N) "")) by reflexivity.
  assert (H5 : utf8_decode (String (byte 0xFF%N) "") = None) by reflexivity.
  repeat (split; [assumption |]).
  exact (proj1 (undecodable_entry_raises 10 fetch_A_then_B url_x _
                  world_bad_entry 0 _ _ H1 H2 H3 H4 H5)).
Defined.

Lemma unencodable_result_raises_witness :
  utf8_encode url_x = Some "http://x"%string
  /\ CallCounter world0 "http://x" = Some 0
  /\ 0 < LLONG_MAX
  /\ truthy (CacheEntry world0 "http://x") = false
  /\ fetch_surrogate (clock world0) url_x = (5%N, inr [0xDC00%N])
  /\ utf8_encode [0xDC00%N] = None
  /\ fst (wrapper 10 fetch_surrogate url_x world0) = inl UnicodeEncodeError.
Proof.
  assert (H1 : utf8_encode url_x = Some "http://x"%string) by reflexivity.
  assert (H2 : CallCounter world0 "http://x" = Some 0) by reflexivity.
  assert (H3 : 0 < LLONG_MAX) by reflexivity.
  assert (H4 : truthy (CacheEntry world0 "http://x") = false) by reflexivity.
  assert (H5 : fetch_surrogate (clock world0) url_x = (5%N, inr [0xDC00%N]))
    by reflexivity.
  assert (H6 : utf8_encode [0xDC00%N] = None) by reflexivity.
  repeat (split; [assumption |]).
  exact (proj1 (unencodable_result_raises 10 fetch_surrogate url_x _ world0 0
                  5%N _ H1 H2 H3 H4 H5 H6)).
Defined.

Lemma other_url_leaves_keys_witness :
  utf8_encode url_x = Some "http://x"%string
  /\ url_y <> url_x
  /\ db (snd (wrapper 10 fetch_A_then_B url_y world_empty_entry))
       !! count_key "http://x"
     = db world_empty_entry !! count_key "http://x".
Proof.
  assert (H1 : utf8_encode url_x = Some "http://x"%string) by reflexivity.
  assert (H2 : url_y <> url_x) by (vm_compute; discriminate).
  split; [exact H1 |]. split; [exact H2 |].
  exact (proj1 (other_url_leaves_keys 10 fetch_A_then_B url_x url_y _
                  world_empty_entry H1 H2)).
Defined.

Lemma one_fetch_serves_the_window_witness :
  utf8_encode url_x = Some "http://x"%string
  /\ counts world0 "http://x" 0
  /\ 0 + 1 + Z.of_nat (List.length [3000%N; 4000%N]) <= LLONG_MAX
  /\ truthy (CacheEntry world0 "http://x") = false
  /\ fetch_A_then_B (clock world0) url_x = (5%N, inr (str_of_ascii "A"))
  /\ utf8_encode (str_of_ascii "A") = Some "A"%string
  /\ str_of_ascii "A" <> []
  /\ 0 < 10 <= LLONG_MAX / 1000
  /\ clock world0 + Z.of_N 5 + 10 * 1000 <= LLONG_MAX
  /\ total [3000%N; 4000%N] <= 10 * 1000
  /\ outcomes (wrapper 10 fetch_A_then_B) (revisit url_x [3000%N; 4000%N])
       (snd (wrapper 10 fetch_A_then_B url_x world0))
     = [inr (str_of_ascii "A"); inr (str_of_ascii "A")].
Proof.
  assert (H1 : utf8_encode url_x = Some "http://x"%string) by reflexivity.
  assert (H2 : counts world0 "http://x" 0) by (left; split; reflexivity).
  assert (H3 : 0 + 1 + Z.of_nat (List.length [3000%N; 4000%N]) <= LLONG_MAX)
    by (vm_compute; congruence).
  assert (H4 : truthy (CacheEntry world0 "http://x") = false) by reflexivity.
  assert (H5 : fetch_A_then_B (clock world0) url_x = (5%N, inr (str_of_ascii "A")))
    by reflexivity.
  assert (H6 : utf8_encode (str_of_ascii "A") = Some "A"%string) by reflexivity.
  assert (H7 : str_of_ascii "A" <> []) by (vm_compute; discriminate).
  assert (H8 : 0 < 10 <= LLONG_MAX / 1000) by (split; vm_compute; congruence).
  assert (H9 : clock world0 + Z.of_N 5 + 10 * 1000 <= LLONG_MAX)
    by (vm_compute; congruence).
  assert (H10 : total [3000%N; 4000%N] <= 10 * 1000) by (vm_compute; congruence).
  repeat (split; [assumption |]).
  exact (proj1 (proj2 (one_fetch_serves_the_window 10 fetch_A_then_B url_x _
                         world0 0 5%N _ _ [3000%N; 4000%N]
                         H1 H2 H3 H4 H5 H6 H7 H8 H9 H10))).
Defined.

Lemma main_requests_once_witness :
  counts (outside process0) main_url_text 0
  /\ 0 + 2 <= LLONG_MAX
  /\ truthy (CacheEntry (outside process0) main_url_text) = false
  /\ requests_get_ok (clock (outside process0)) main_url
     = (1200%N, inr (Response 200 (str_of_ascii "<html>")))
  /\ utf8_encode (str_of_ascii "<html>") = Some "<html>"%string
  /\ str_of_ascii "<html>" <> []
  /\ clock (outside process0) + Z.of_N 1200 + 10 * 1000 <= LLONG_MAX
  /\ Z.of_N 2 + Z.of_N 3 <= 10 * 1000
  /\ fst (main requests_get_ok 2 3 2 process0) = inr tt.
Proof.
  assert (H1 : counts (outside process0) main_url_text 0)
    by (left; split; reflexivity).
  assert (H2 : 0 + 2 <= LLONG_MAX) by (vm_compute; congruence).
  assert (H3 : truthy (CacheEntry (outside process0) main_url_text) = false)
    by reflexivity.
  assert (H4 : requests_get_ok (clock (outside process0)) main_url
               = (1200%N, inr (Response 200 (str_of_ascii "<html>"))))
    by reflexivity.
  assert (H5 : utf8_encode (str_of_ascii "<html>") = Some "<html>"%string)
    by reflexivity.
  assert (H6 : str_of_ascii "<html>" <> []) by (vm_compute; discriminate).
  assert (H7 : clock (outside process0) + Z.of_N 1200 + 10 * 1000 <= LLONG_MAX)
    by (vm_compute; congruence).
  assert (H8 : Z.of_N 2 + Z.of_N 3 <= 10 * 1000) by (vm_compute; congruence).
  repeat (split; [assumption |]).
  exact (proj1 (main_requests_once requests_get_ok 2%N 3%N 2%N process0 0
                  1200%N (Response 200 (str_of_ascii "<html>")) _
                  H1 H2 H3 H4 H5 H6 H7 H8)).
Defined.

Lemma main_request_fails_witness :
  CallCounter (outside process0) main_url_text = Some 0
  /\ 0 < LLONG_MAX
  /\ truthy (CacheEntry (outside process0) main_url_text) = false
  /\ requests_get_down (clock (outside process0)) main_url
     = (30000%N, inl (Raised "ConnectionError"))
  /\ fst (main requests_get_down 2 3 2 process0) = inl (Raised "ConnectionError").
Proof.
  assert (H1 : CallCounter (outside process0) main_url_text = Some 0)
    by reflexivity.
  assert (H2 : 0 < LLONG_MAX) by reflexivity.
  assert (H3 : truthy (CacheEntry (outside process0) main_url_text) = false)
    by reflexivity.
  assert (H4 : requests_get_down (clock (outside process0)) main_url
               = (30000%N, inl (Raised "ConnectionError"))) by reflexivity.
  repeat (split; [assumption |]).
  exact (proj1 (main_request_fails requests_get_down 2%N 3%N 2%N process0 0 30000%N _
                  H1 H2 H3 H4)).
Defined.


(** ** The life of an entry *)

Lemma run_clock_mono (expiration : Z) (func : fetcher) (acts : list action)
    (w : world) :
  clock w <= clock (run (wrapper expiration func) acts w).
Proof.
  revert w. induction acts as [| [ms | url] acts IH]; intros w; cbn [run].
  - lia.
  - specialize (IH (sleep ms w)).
    assert (Hs : clock (sleep ms w) = clock w + Z.of_N ms) by reflexivity.
    lia.
  - pose proof (wrapper_clock_mono expiration func url w).
    specialize (IH (snd (wrapper expiration func url w))). lia.
Qed.

(** A call with another url leaves both keys of this url alone. *)
Lemma wrapper_other_url (expiration : Z) (func : fetcher) (url url' : str)
    (u : string) (w : world) :
  utf8_encode url = Some u -> url' <> url ->
  db (snd (wrapper expiration func url' w)) !! count_key u = db w !! count_key u
  /\ db (snd (wrapper expiration func url' w)) !! cache_key u
     = db w !! cache_key u.
Proof.
  intros Hurl Hne.
  assert (Hu' : forall u', utf8_encode url' = Some u' -> u <> u').
  { intros u' Hu' ->. apply Hne. exact (utf8_encode_inj _ _ _ Hu' Hurl). }
  split; apply wrapper_other_keys; intros u' Hurl'; split.
  - intros E. apply count_key_inj in E. exact (Hu' u' Hurl' E).
  - apply count_cache_ne.
  - apply count_ne_cache.
  - intros E. unfold cache_key in E. apply String.app_inj in E.
    exact (Hu' u' Hurl' E).
Qed.

(** Whatever a caller does before the expiry time [E] of a non-empty
    entry, with this url or with others, the entry stays as it was written:
    the calls with the url are hits, and a hit writes nothing at the cache
    key. *)
Lemma entry_kept (expiration : Z) (func : fetcher) (url : str) (u : string)
    (a : ascii) (s : string) (result : str) (E : Z) :
  utf8_encode url = Some u ->
  utf8_decode (String a s) = Some result ->
  forall (acts : list action) (w : world) (n : Z),
    counts w u n -> n + visits url acts <= LLONG_MAX ->
    db w !! cache_key u = Some (Entry (String a s) (Some E)) ->
    clock (run (wrapper expiration func) acts w) <= E ->
    db (run (wrapper expiration func) acts w) !! cache_key u
    = Some (Entry (String a s) (Some E))
    /\ counts (run (wrapper expiration func) acts w) u (n + visits url acts).
Proof.
  intros Hurl Hdec acts.
  induction acts as [| [ms | url'] acts IH]; intros w n Hn Hroom Hdb Hwin;
    cbn [run visits] in *.
  - rewrite Z.add_0_r. split; assumption.
  - apply IH; [| exact Hroom | exact Hdb | exact Hwin].
    apply (counts_later w); [exact Hn | reflexivity |].
    unfold sleep. cbn [clock]. lia.
  - pose proof (visits_nonneg url acts) as Hge.
    pose proof (run_clock_mono expiration func acts
                  (snd (wrapper expiration func url' w))) as Hmono.
    pose proof (wrapper_clock_mono expiration func url' w) as Hstep.
    destruct (decide (url' = url)) as [-> | Hne].
    + assert (Hhit : CacheEntry w u = Some (String a s))
        by (apply (live_entry w _ _ E); [exact Hdb | lia]).
      destruct (hit_round expiration func url u w n a s result
                  Hurl Hn ltac:(lia) Hhit Hdec)
        as (w1 & Hcall & Hn1 & Hdb1 & Hclock & Htr).
      rewrite Hcall in *. cbn [snd] in *.
      rewrite Z.add_assoc. apply IH; [exact Hn1 | lia | | exact Hwin].
      rewrite Hdb1. exact Hdb.
    + destruct (wrapper_other_url expiration func url url' u w Hurl Hne)
        as [Hck Hcak].
      rewrite Z.add_0_l. apply IH; [| lia | | exact Hwin].
      * apply (counts_later w); [exact Hn | exact Hck | exact Hstep].
      * rewrite Hcak. exact Hdb.
Qed.

(** C5: a call that comes after the expiry time of the entry of its url is
    a miss: the wrapped function is called and its fresh result is stored
    and returned.  The expiry time of an entry is [expiration] seconds
    after the call that wrote it, whatever calls came in between, with this
    url or with others: a hit does not renew the entry. *)
Theorem expired_entry_fetched_again :
  (forall expiration func url u w c v E took result v',
      utf8_encode url = Some u ->
      CallCounter w u = Some c -> c < LLONG_MAX ->
      db w !! cache_key u = Some (Entry v (Some E)) ->
      E < clock w ->
      func (clock w) url = (took, inr result) ->
      utf8_encode result = Some v' ->
      0 < expiration <= LLONG_MAX / 1000 ->
      clock w + Z.of_N took + expiration * 1000 <= LLONG_MAX ->
      let r := wrapper expiration func url w in
      CacheEntry w u = None
      /\ fst r = inr result
      /\ trace (snd r)
         = trace w ++ [INCR (count_key u); GET (cache_key u); CALL url;
                       SETEX (cache_key u) expiration v']
      /\ db (snd r) !! cache_key u
         = Some (Entry v' (Some (clock (snd r) + expiration * 1000))))
  /\ (forall expiration func url u w c took result v acts ms took2 result2 v2,
      utf8_encode url = Some u ->
      counts w u c ->
      c + 2 + visits url acts <= LLONG_MAX ->
      truthy (CacheEntry w u) = false ->
      func (clock w) url = (took, inr result) ->
      utf8_encode result = Some v ->
      result <> [] ->
      0 < expiration <= LLONG_MAX / 1000 ->
      let g := wrapper expiration func in
      let E := clock w + Z.of_N took + expiration * 1000 in
      let w2 := run g acts (snd (g url w)) in
      clock w2 <= E ->
      E < clock w2 + Z.of_N ms ->
      func (clock w2 + Z.of_N ms) url = (took2, inr result2) ->
      utf8_encode result2 = Some v2 ->
      clock w2 + Z.of_N ms + Z.of_N took2 + expiration * 1000 <= LLONG_MAX ->
      let r := g url (sleep ms w2) in
      db (sleep ms w2) !! cache_key u = Some (Entry v (Some E))
      /\ fst r = inr result2
      /\ trace (snd r)
         = trace w2 ++ [INCR (count_key u); GET (cache_key u); CALL url;
                        SETEX (cache_key u) expiration v2]
      /\ db (snd r) !! cache_key u
         = Some (Entry v2 (Some (clock (snd r) + expiration * 1000)))).
Proof.
  split.
  - intros expiration func url u w c v E took result v'
      Hurl Hc Hr Hdb Hpast Hf Hv Hexp Hfit r. subst r.
    assert (Hgone : CacheEntry w u = None).
    { unfold CacheEntry, live. rewrite Hdb. unfold expired. cbn [expire_at].
      replace (E <? clock w) with true by (symmetry; apply Z.ltb_lt; exact Hpast).
      reflexivity. }
    assert (Hmiss : truthy (CacheEntry w u) = false) by (rewrite Hgone; reflexivity).
    rewrite (wrapper_miss_stores expiration func url u w c Hurl Hc Hr
               took result v' Hmiss Hf Hv (invalid_expire_false _ _ Hexp Hfit)).
    cbn [fst snd trace db clock].
    split; [exact Hgone |]. split; [reflexivity |]. split; [reflexivity |].
    apply lookup_insert_eq.
  - intros expiration func url u w c took result v acts ms took2 result2 v2
      Hurl Hn Hroom Hmiss Hf Hv Hne Hexp. cbv zeta.
    pose proof (visits_nonneg url acts) as Hge.
    pose proof (counts_nonneg w u c Hn) as Hc0.
    pose proof (run_clock_mono expiration func acts
                  (snd (wrapper expiration func url w))) as Hmono.
    pose proof (wrapper_clock_mono expiration func url w) as Hstep.
    destruct (wrapper expiration func url w) as [r1 w1] eqn:Hcall.
    cbn [snd] in *.
    set (w2 := run (wrapper expiration func) acts w1) in *.
    intros Hwin Hpast Hf2 Hv2 Hfit.
    assert (Hfit1 : clock w + Z.of_N took + expiration * 1000 <= LLONG_MAX)
      by lia.
    destruct (miss_round expiration func url u w c took result v
                Hurl Hn ltac:(lia) Hmiss Hf Hv Hexp Hfit1)
      as (w1' & Hcall' & Hn1 & Hdb1 & Hclock1 & Htr1).
    rewrite Hcall in Hcall'. injection Hcall' as _ <-.
    rewrite Hclock1 in Hdb1.
    destruct v as [| a s].
    { apply utf8_encode_empty in Hv. contradiction. }
    destruct (entry_kept expiration func url u a s result
                (clock w + Z.of_N took + expiration * 1000) Hurl
                (utf8_decode_encode result _ Hv) acts w1 (c + 1) Hn1
                ltac:(lia) Hdb1 Hwin)
      as [Hdb2 Hn2].
    fold w2 in Hdb2, Hn2.
    assert (Hn3 : counts (sleep ms w2) u (c + 1 + visits url acts)).
    { apply (counts_later w2); [exact Hn2 | reflexivity |].
      unfold sleep. cbn [clock]. lia. }
    assert (Hgone : truthy (CacheEntry (sleep ms w2) u) = false).
    { unfold CacheEntry, live, sleep. cbn [db clock]. rewrite Hdb2.
      unfold expired. cbn [expire_at].
      replace (clock w + Z.of_N took + expiration * 1000 <? clock w2 + Z.of_N ms)
        with true by (symmetry; apply Z.ltb_lt; exact Hpast).
      reflexivity. }
    destruct (miss_round expiration func url u (sleep ms w2)
                (c + 1 + visits url acts) took2 result2 v2
                Hurl Hn3 ltac:(lia) Hgone Hf2 Hv2 Hexp Hfit)
      as (w3 & Hcall3 & _ & Hdb3 & _ & Htr3).
    rewrite Hcall3. cbn [fst snd].
    split; [exact Hdb2 |]. split; [reflexivity |].
    split; [exact Htr3 | exact Hdb3].
Qed.

Lemma expired_entry_fetched_again_witness :
  utf8_encode url_x = Some "http://x"%string
  /\ counts world0 "http://x" 0
  /\ 0 + 2 + visits url_x [Visit url_x; Visit url_y] <= LLONG_MAX
  /\ truthy (CacheEntry world0 "http://x") = false
  /\ fetch_A_then_B (clock world0) url_x = (5%N, inr (str_of_ascii "A"))
  /\ utf8_encode (str_of_ascii "A") = Some "A"%string
  /\ str_of_ascii "A" <> []
  /\ 0 < 1 <= LLONG_MAX / 1000
  /\ clock (run (wrapper 1 fetch_A_then_B) [Visit url_x; Visit url_y]
             (snd (wrapper 1 fetch_A_then_B url_x world0)))
     <= clock world0 + Z.of_N 5 + 1 * 1000
  /\ clock world0 + Z.of_N 5 + 1 * 1000
     < clock (run (wrapper 1 fetch_A_then_B) [Visit url_x; Visit url_y]
                (snd (wrapper 1 fetch_A_then_B url_x world0)))
       + Z.of_N 2000
  /\ fetch_A_then_B
       (clock (run (wrapper 1 fetch_A_then_B) [Visit url_x; Visit url_y]
                 (snd (wrapper 1 fetch_A_then_B url_x world0)))
        + Z.of_N 2000) url_x
     = (5%N, inr (str_of_ascii "B"))
  /\ utf8_encode (str_of_ascii "B") = Some "B"%string
  /\ clock (run (wrapper 1 fetch_A_then_B) [Visit url_x; Visit url_y]
             (snd (wrapper 1 fetch_A_then_B url_x world0)))
     + Z.of_N 2000 + Z.of_N 5 + 1 * 1000 <= LLONG_MAX
  /\ fst (wrapper 1 fetch_A_then_B url_x
            (sleep 2000
               (run (wrapper 1 fetch_A_then_B) [Visit url_x; Visit url_y]
                  (snd (wrapper 1 fetch_A_then_B url_x world0)))))
     = inr (str_of_ascii "B").
Proof.
  assert (H1 : utf8_encode url_x = Some "http://x"%string) by reflexivity.
  assert (H2 : counts world0 "http://x" 0) by (left; split; reflexivity).
  assert (H3 : 0 + 2 + visits url_x [Visit url_x; Visit url_y] <= LLONG_MAX)
    by (vm_compute; congruence).
  assert (H4 : truthy (CacheEntry world0 "http://x") = false) by reflexivity.
  assert (H5 : fetch_A_then_B (clock world0) url_x = (5%N, inr (str_of_ascii "A")))
    by reflexivity.
  assert (H6 : utf8_encode (str_of_ascii "A") = Some "A"%string) by reflexivity.
  assert (H7 : str_of_ascii "A" <> []) by (vm_compute; discriminate).
  assert (H8 : 0 < 1 <= LLONG_MAX / 1000) by (split; vm_compute; congruence).
  assert (H9 : clock (run (wrapper 1 fetch_A_then_B) [Visit url_x; Visit url_y]
                        (snd (wrapper 1 fetch_A_then_B url_x world0)))
               <= clock world0 + Z.of_N 5 + 1 * 1000)
    by (vm_compute; congruence).
  assert (H10 : clock world0 + Z.of_N 5 + 1 * 1000
                < clock (run (wrapper 1 fetch_A_then_B) [Visit url_x; Visit url_y]
                           (snd (wrapper 1 fetch_A_then_B url_x world0)))
                  + Z.of_N 2000)
    by (vm_compute; reflexivity).
  assert (H11 : fetch_A_then_B
                  (clock (run (wrapper 1 fetch_A_then_B) [Visit url_x; Visit url_y]
                            (snd (wrapper 1 fetch_A_then_B url_x world0)))
                   + Z.of_N 2000) url_x
                = (5%N, inr (str_of_ascii "B")))
    by (vm_compute; reflexivity).
  assert (H12 : utf8_encode (str_of_ascii "B") = Some "B"%string) by reflexivity.
  assert (H13 : clock (run (wrapper 1 fetch_A_then_B) [Visit url_x; Visit url_y]
                         (snd (wrapper 1 fetch_A_then_B url_x world0)))
                + Z.of_N 2000 + Z.of_N 5 + 1 * 1000 <= LLONG_MAX)
    by (vm_compute; congruence).
  repeat (split; [assumption |]).
  exact (proj1 (proj2 (proj2 expired_entry_fetched_again
    1 fetch_A_then_B url_x _ world0 0 5%N _ _ [Visit url_x; Visit url_y]
    2000%N 5%N _ _ H1 H2 H3 H4 H5 H6 H7 H8 H9 H10 H11 H12 H13))).
Defined.

(** ** The script on a warm cache *)

(** An entry that is live at a later time was live before. *)
Lemma CacheEntry_earlier (w w' : world) (u : string) (b : string) :
  CacheEntry w' u = Some b ->
  db w' !! cache_key u = db w !! cache_key u -> clock w <= clock w' ->
  CacheEntry w u = Some b.
Proof.
  unfold CacheEntry, live, expired. intros H Hdb Hle. rewrite Hdb in H.
  destruct (db w !! cache_key u) as [[v [t |]] |]; cbn [expire_at] in *;
    [| exact H | exact H].
  destruct (Z.ltb_spec t (clock w')); [discriminate H |].
  replace (t <? clock w) with false by (symmetry; apply Z.ltb_ge; lia).
  exact H.
Qed.

(** X10: started while a page is cached for its url, and with that entry
    still live when the second fetch comes, [lag1 + lag2] later, the script
    makes no HTTP request at all: it prints the cached page twice, each
    time with the counter, which goes up by one per fetch. *)
Theorem main_served_from_cache :
  forall requests_get lag1 lag2 lag3 p c a s page,
    counts (outside p) main_url_text c ->
    c + 2 <= LLONG_MAX ->
    CacheEntry (sleep (lag1 + lag2) (outside p)) main_url_text
    = Some (String a s) ->
    utf8_decode (String a s) = Some page ->
    let r := main requests_get lag1 lag2 lag3 p in
    fst r = inr tt
    /\ stdout (snd r)
       = stdout p
         ++ [page;
             str_of_ascii "Count: " ++ str_of_ascii (ll2string (c + 1));
             page;
             str_of_ascii "Count: " ++ str_of_ascii (ll2string (c + 2))]
    /\ trace (outside (snd r))
       = trace (outside p)
         ++ [INCR (count_key main_url_text); GET (cache_key main_url_text);
             GET (count_key main_url_text);
             INCR (count_key main_url_text); GET (cache_key main_url_text);
             GET (count_key main_url_text)].
Proof.
  intros requests_get lag1 lag2 lag3 [out w] c a s page Hn Hroom Hlater Hdec r.
  subst r. cbn [outside stdout] in *.
  pose proof (counts_nonneg w _ c Hn) as Hge.
  assert (Hhit : CacheEntry w main_url_text = Some (String a s)).
  { apply (CacheEntry_earlier w (sleep (lag1 + lag2) w)); [exact Hlater | reflexivity |].
    unfold sleep. cbn [clock]. lia. }
  destruct (hit_round 10 (get_page_body requests_get) main_url main_url_text
              w c a s page main_url_encoded Hn ltac:(lia) Hhit Hdec)
    as (w1 & Hcall1 & Hn1 & Hdb1 & Hclock1 & Htr1).
  assert (Hn1' : counts (sleep lag1 w1) main_url_text (c + 1)).
  { apply (counts_later w1); [exact Hn1 | reflexivity |].
    unfold sleep. cbn [clock]. lia. }
  pose proof (read_count_counts main_url main_url_text (sleep lag1 w1) (c + 1)
                main_url_encoded Hn1' ltac:(lia)) as Hread1.
  set (w2 := sleep lag2 (log (GET (count_key main_url_text)) (sleep lag1 w1)))
    in *.
  assert (Hn2 : counts w2 main_url_text (c + 1)).
  { apply (counts_later (sleep lag1 w1)); [exact Hn1' | reflexivity |].
    unfold w2, sleep, log. cbn [clock]. lia. }
  assert (Hhit2 : CacheEntry w2 main_url_text = Some (String a s)).
  { unfold CacheEntry, live in *. unfold w2, sleep, log in *.
    cbn [db clock] in *. rewrite Hdb1, Hclock1.
    replace (clock w + Z.of_N lag1 + Z.of_N lag2)
      with (clock w + Z.of_N (lag1 + lag2)) by lia.
    exact Hlater. }
  destruct (hit_round 10 (get_page_body requests_get) main_url main_url_text
              w2 (c + 1) a s page main_url_encoded Hn2 ltac:(lia) Hhit2 Hdec)
    as (w3 & Hcall2 & Hn3 & Hdb3 & Hclock3 & Htr3).
  assert (Hn3' : counts (sleep lag3 w3) main_url_text (c + 1 + 1)).
  { apply (counts_later w3); [exact Hn3 | reflexivity |].
    unfold sleep. cbn [clock]. lia. }
  pose proof (read_count_counts main_url main_url_text (sleep lag3 w3)
                (c + 1 + 1) main_url_encoded Hn3' ltac:(lia)) as Hread2.
  unfold main, io_bind, lift, print, pause, get_page, cache_and_count,
    default_expiration.
  cbn [outside stdout]. rewrite Hcall1. cbn [outside stdout].
  rewrite Hread1. cbn [outside stdout]. fold w2.
  rewrite Hcall2. cbn [outside stdout].
  rewrite Hread2. cbn [fst snd outside stdout trace log].
  split; [reflexivity |]. split.
  - rewrite <- !app_assoc. cbn [app].
    replace (c + 1 + 1) with (c + 2) by lia. reflexivity.
  - unfold sleep at 1. cbn [trace]. rewrite Htr3.
    unfold w2, sleep, log. cbn [trace]. rewrite Htr1.
    rewrite <- !app_assoc. reflexivity.
Qed.

Lemma main_served_from_cache_witness :
  counts (outside process_cached) main_url_text 2
  /\ 2 + 2 <= LLONG_MAX
  /\ CacheEntry (sleep (2 + 3) (outside process_cached)) main_url_text
     = Some "<html>"%string
  /\ utf8_decode "<html>" = Some (str_of_ascii "<html>")
  /\ fst (main requests_get_down 2 3 2 process_cached) = inr tt.
Proof.
  assert (H1 : counts (outside process_cached) main_url_text 2).
  { right. split; [split; vm_compute; congruence | vm_compute; reflexivity]. }
  assert (H2 : 2 + 2 <= LLONG_MAX) by (vm_compute; congruence).
  assert (H3 : CacheEntry (sleep (2 + 3) (outside process_cached)) main_url_text
               = Some "<html>"%string) by (vm_compute; reflexivity).
  assert (H4 : utf8_decode "<html>" = Some (str_of_ascii "<html>"))
    by reflexivity.
  repeat (split; [assumption |]).
  exact (proj1 (main_served_from_cache requests_get_down 2%N 3%N 2%N
                  process_cached 2 _ _ _ H1 H2 H3 H4)).
Defined.

(** With no time to live left when the second fetch comes, the same start
    ends in an HTTP request. *)
Example main_entry_expires_between_fetches :
  let p := {| stdout := [];
              outside := store (cache_key main_url_text)
                           (Entry "<html>" (Some 0)) world0 |} in
  CacheEntry (outside p) main_url_text = Some "<html>"%string
  /\ fst (main requests_get_down 2 3 2 p) = inl (Raised "ConnectionError")
  /\ stdout (snd (main requests_get_down 2 3 2 p))
     = [str_of_ascii "<html>"; str_of_ascii "Count: 1"].
Proof. vm_compute. repeat split. Qed.
